(** * Treeson: directory and repository listings as nested JSON

    A shallow embedding of [treeson/cli.py]: the configuration and its ignore
    predicate, the traversal engine [dir_to_json] over a model of the file
    system, and the path-tree builder of [github_repo_to_json] over the flat
    listing the remote API returns. *)

From Stdlib Require Import ZArith Lia Ascii String Sorted.
From stdpp Require Import base strings list gmap.

Open Scope string_scope.
Open Scope list_scope.

(** ** JSON values built by the two components

    A Python [dict] keeps its keys in insertion order and [json.dumps] prints
    them in that order, so a dictionary is an association list: assigning to a
    key that is present replaces the value in place, assigning to a fresh key
    appends it. *)

#[local] Unset Elimination Schemes.
Inductive value : Type :=
| VList (names : list string)
| VDict (entries : list (string * value)).
#[local] Set Elimination Schemes.

Definition dict : Type := list (string * value).

(** [k in d] *)
Fixpoint dict_mem (k : string) (d : dict) : bool :=
  match d with
  | [] => false
  | (k', _) :: d' => if String.eqb k k' then true else dict_mem k d'
  end.

(** [d[k]], [None] standing for [KeyError] *)
Fixpoint dict_get (k : string) (d : dict) : option value :=
  match d with
  | [] => None
  | (k', v) :: d' => if String.eqb k k' then Some v else dict_get k d'
  end.

(** [d[k] = v] *)
Fixpoint dict_set (k : string) (v : value) (d : dict) : dict :=
  match d with
  | [] => [(k, v)]
  | (k', v') :: d' =>
      if String.eqb k k' then (k', v) :: d' else (k', v') :: dict_set k v d'
  end.

Definition dict_keys (d : dict) : list string := map fst d.

(** [{"files": []}] *)
Definition empty_node : dict := [("files", VList [])].

(** ** Configuration *)

Definition DEFAULT_IGNORES : gset string :=
  list_to_set
    [".git"; "__pycache__"; ".DS_Store"; "node_modules"; "venv"; ".venv";
     ".idea"; ".pytest_cache"; ".mypy_cache"; ".tox"; "dist"; "build";
     "*.egg-info"].

Record TreesonConfig : Type := {
  ignores : gset string;
  include_hidden : bool;
  max_depth : option Z
}.

Definition default_config : TreesonConfig :=
  {| ignores := DEFAULT_IGNORES; include_hidden := false; max_depth := None |}.

(** [name.startswith('.')] *)
Definition starts_with_dot (name : string) : bool :=
  match name with
  | String c _ => Ascii.eqb c "."%char
  | EmptyString => false
  end.

Definition should_ignore (self : TreesonConfig) (name : string) : bool :=
  if negb (include_hidden self) && starts_with_dot name then true
  else bool_decide (name ∈ ignores self).

(** ** Exceptions and the diagnostic stream *)

Definition Path : Type := list string.

(** [DirectoryNotFoundError] is a subclass of [TreesonError]; the "not a
    directory" failure is raised as the base class itself. The others are
    Python's own. *)
Inductive exn : Type :=
| DirectoryNotFoundError (path : Path)
| TreesonError (path : Path)
| PermissionError (path : Path)
| AttributeError
| TypeError
| KeyError
| OSError
| RecursionError.

Definition is_PermissionError (e : exn) : bool :=
  match e with PermissionError _ => true | _ => false end.

(** [isinstance(e, TreesonError)], the test of [main]'s first handler *)
Definition is_TreesonError (e : exn) : bool :=
  match e with
  | DirectoryNotFoundError _ | TreesonError _ => true
  | _ => false
  end.

(** A line printed to [sys.stderr]: "Warning: Permission denied accessing p" *)
Inductive diagnostic : Type :=
| PermissionWarning (path : Path).

(** A computation returns or raises, and leaves the lines it printed. *)
Definition M (A : Type) : Type := (exn + A) * list diagnostic.

Definition ret {A} (a : A) : M A := (inr a, []).
Definition raise {A} (e : exn) : M A := (inl e, []).
Definition warn (p : Path) : M unit := (inr tt, [PermissionWarning p]).

Definition bind {A B} (m : M A) (k : A -> M B) : M B :=
  match m with
  | (inl e, w) => (inl e, w)
  | (inr a, w) => let '(r, w') := k a in (r, w ++ w')
  end.

Notation "'let*' x ':=' m 'in' k" := (bind m (fun x => k))
  (at level 10, x name, m at level 100, k at level 200).

(** [try: m  except PermissionError: h] *)
Definition try_permission {A} (m : M A) (h : M A) : M A :=
  match m with
  | (inl e, w) =>
      if is_PermissionError e then let '(r, w') := h in (r, w ++ w')
      else (inl e, w)
  | (inr a, w) => (inr a, w)
  end.

(** ** The file system, as [pathlib] shows it

    A node is what [os.stat] (which follows symbolic links) reports for a
    path. [Dangling] is a path whose [stat] fails with [ENOENT] or [ELOOP]:
    nothing there, or a broken symbolic link; [exists], [is_dir] and [is_file]
    answer [False] for it. [Inaccessible] is a path whose [stat] fails with
    [EACCES]: the three predicates let that [PermissionError] through, which
    is what the handlers and the docstring of [dir_to_json] count on (under an
    interpreter whose predicates answer [False] there instead, such a path
    is a [Dangling] one). A directory carries its entries in the order
    [os.listdir] yields them, and whether it may be listed. *)

#[local] Unset Elimination Schemes.
Inductive fsnode : Type :=
| Regular
| Directory (listable : bool) (children : list (string * fsnode))
| Special
| Dangling
| Inaccessible.
#[local] Set Elimination Schemes.

Definition path_exists (path : Path) (n : fsnode) : M bool :=
  match n with
  | Dangling => ret false
  | Inaccessible => raise (PermissionError path)
  | _ => ret true
  end.

Definition is_dir (path : Path) (n : fsnode) : M bool :=
  match n with
  | Directory _ _ => ret true
  | Inaccessible => raise (PermissionError path)
  | _ => ret false
  end.

Definition is_file (path : Path) (n : fsnode) : M bool :=
  match n with
  | Regular => ret true
  | Inaccessible => raise (PermissionError path)
  | _ => ret false
  end.

(** ** The interpreter

    Two things the traversal takes from the interpreter it runs on.

    The first is [str.lower], which lowers every cased character of Unicode.
    A name is modelled by the bytes of its UTF-8 form, one [ascii] each:
    comparing two such sequences byte by byte orders them as Python orders
    the strings, by code point. Of [lower] the model keeps what it does to a
    name in ASCII, where it lowers the letters A to Z and keeps the rest.

    The second is the recursion limit. [dir_to_json] calls itself once per
    level of directories, and a call the stack has no room for raises
    [RecursionError]: in the call itself or in what it calls in turn ahead
    of its loop ([exists], [is_dir], the key function of [sorted]), so
    before it has printed or returned anything; no handler of the program
    catches it. [stack_exhausted config path n current_depth] says that of
    the call [dir_to_json(path, config, current_depth)] made at line 117 on
    a directory [n]; nothing is assumed of where that happens. The call the
    traversal starts with is taken to have room for itself. *)

Definition ascii_lower_char (c : ascii) : ascii :=
  let n := N_of_ascii c in
  if ((65 <=? n) && (n <=? 90))%N then ascii_of_N (n + 32) else c.

Fixpoint ascii_lower (s : string) : string :=
  match s with
  | EmptyString => EmptyString
  | String c s' => String (ascii_lower_char c) (ascii_lower s')
  end.

(** [s.isascii()] *)
Fixpoint isascii (s : string) : bool :=
  match s with
  | EmptyString => true
  | String c s' => (N_of_ascii c <? 128)%N && isascii s'
  end.

Class Interpreter : Type := {
  lower : string -> string;
  lower_ascii : forall s, isascii s = true -> lower s = ascii_lower s;
  stack_exhausted : TreesonConfig -> Path -> fsnode -> Z -> bool
}.

(** An interpreter whose stack has room for every call, on names in ASCII. *)
Definition ascii_interpreter : Interpreter :=
  {| lower := ascii_lower;
     lower_ascii := fun _ _ => eq_refl;
     stack_exhausted := fun _ _ _ _ => false |}.

(** The stack has room for every call of the traversal. *)
Definition stack_suffices {python : Interpreter} : Prop :=
  forall config path n current_depth,
    stack_exhausted config path n current_depth = false.

(** ** [sorted(..., key=lambda x: (not x.is_dir(), x.name.lower()))] *)

Definition sort_key : Type := bool * string.

(** Tuple comparison: the first components decide unless they are equal,
    [False < True], and strings compare by code point. *)
Definition key_lt (k1 k2 : sort_key) : bool :=
  if Bool.eqb k1.1 k2.1 then String.ltb k1.2 k2.2 else negb k1.1.

Definition key_le (k1 k2 : sort_key) : bool := negb (key_lt k2 k1).

(** [sorted] is stable: an element goes after the ones before it whose key is
    not greater. Inserting from the right into the sorted rest does that. *)
Fixpoint insert_by_key {A} (x : sort_key * A) (l : list (sort_key * A))
  : list (sort_key * A) :=
  match l with
  | [] => [x]
  | y :: l' => if key_lt y.1 x.1 then y :: insert_by_key x l' else x :: y :: l'
  end.

Definition stable_sort {A} (l : list (sort_key * A)) : list (sort_key * A) :=
  foldr insert_by_key [] l.

(** The keys are computed for every element before any comparison. *)
Fixpoint decorate {A} (key : A -> M sort_key) (l : list A)
  : M (list (sort_key * A)) :=
  match l with
  | [] => ret []
  | x :: l' =>
      let* k := key x in
      let* kl := decorate key l' in
      ret ((k, x) :: kl)
  end.

Definition sorted {A} (key : A -> M sort_key) (l : list A) : M (list A) :=
  let* kl := decorate key l in ret (map snd (stable_sort kl)).

(** ** The traversal engine *)

(** An element of [path.iterdir()]: its name, what [stat] says of it, and the
    outcome of [dir_to_json(item, config, current_depth + 1)], which the loop
    uses only where the source makes that call: what the traversal of the
    child comes to, or [RecursionError] where the stack has no room for it.
    (The recursion is laid out this way because the loop runs over the sorted
    listing.) *)
Record item : Type := Item {
  item_name : string;
  item_node : fsnode;
  item_walk : M dict
}.

Definition item_path (path : Path) (x : item) : Path := path ++ [item_name x].

(** [lambda x: (not x.is_dir(), x.name.lower())] *)
Definition item_key {python : Interpreter} (path : Path) (x : item)
  : M sort_key :=
  let* d := is_dir (item_path path x) (item_node x) in
  ret (negb d, lower (item_name x)).

(** [result["files"].append(name)] *)
Definition append_file (name : string) (result : dict) : M dict :=
  match dict_get "files" result with
  | Some (VList names) => ret (dict_set "files" (VList (names ++ [name])) result)
  | Some (VDict _) => raise AttributeError
  | None => raise KeyError
  end.

Section traversal.
Context {python : Interpreter}.
Variable config : TreesonConfig.

(** [config.max_depth is not None and current_depth >= config.max_depth] *)
Definition depth_reached (current_depth : Z) : bool :=
  match max_depth config with
  | Some m => (m <=? current_depth)%Z
  | None => false
  end.

(** The body of the inner [try], lines 114-117. *)
Definition visit (path : Path) (x : item) (result : dict) : M dict :=
  let* f := is_file (item_path path x) (item_node x) in
  if f then append_file (item_name x) result
  else
    let* d := is_dir (item_path path x) (item_node x) in
    if d then
      let* sub := item_walk x in
      ret (dict_set (item_name x) (VDict sub) result)
    else ret result.

(** The [for item in items] loop, lines 109-120. *)
Fixpoint visit_all (path : Path) (items : list item) (result : dict)
  : M dict :=
  match items with
  | [] => ret result
  | x :: rest =>
      if should_ignore config (item_name x) then visit_all path rest result
      else
        let* result' :=
          try_permission (visit path x result)
            (let* _ := warn (item_path path x) in ret result) in
        visit_all path rest result'
  end.

(** Lines 97-122, once the listing is at hand. [listing] is
    [path.iterdir()], which raises where the directory may not be read. *)
Definition walk (path : Path) (current_depth : Z) (listing : M (list item))
  : M dict :=
  let result := empty_node in
  if depth_reached current_depth then ret result
  else
    let* items :=
      try_permission
        (let* l := listing in
         let* s := sorted (item_key path) l in
         ret (Some s))
        (let* _ := warn path in ret None) in
    match items with
    | Some items => visit_all path items result
    | None => ret result
    end.

Fixpoint dir_to_json (n : fsnode) (path : Path) (current_depth : Z)
  : M dict :=
  let* e := path_exists path n in
  if negb e then raise (DirectoryNotFoundError path)
  else
    let* d := is_dir path n in
    if negb d then raise (TreesonError path)
    else
      walk path current_depth
        match n with
        | Directory true children =>
            ret (map (fun c =>
                        Item c.1 c.2
                          (if stack_exhausted config (path ++ [c.1]) c.2
                                (current_depth + 1)
                           then raise RecursionError
                           else dir_to_json c.2 (path ++ [c.1])
                                  (current_depth + 1)))
                   children)
        | Directory false _ => raise (PermissionError path)
        | _ => raise OSError
        end.
End traversal.

(** ** The path-tree builder

    Lines 178-206 of [github_repo_to_json]. What comes before them fetches the
    listing over HTTP; the builder is modelled on the listing itself,
    [resp.json().get("tree", [])]. *)

Record flat_entry : Type := FlatEntry {
  entry_path : string;
  entry_type : string
}.

(** [s.split(sep)] for a separator of one character: never an empty list. *)
Fixpoint split (sep : ascii) (s : string) : list string :=
  match s with
  | EmptyString => [EmptyString]
  | String c s' =>
      if Ascii.eqb c sep then EmptyString :: split sep s'
      else
        match split sep s' with
        | seg :: segs => String c seg :: segs
        | [] => [String c EmptyString]
        end
  end.

(** [current] in the source is whatever the walk has reached: a dictionary,
    or the list under a ["files"] key. The four operations below are Python's
    on either. *)

(** [k in current] *)
Definition contains (k : string) (current : value) : bool :=
  match current with
  | VDict d => dict_mem k d
  | VList names => bool_decide (k ∈ names)
  end.

(** [current[k]] *)
Definition getitem (k : string) (current : value) : M value :=
  match current with
  | VDict d =>
      match dict_get k d with
      | Some v => ret v
      | None => raise KeyError
      end
  | VList _ => raise TypeError
  end.

(** [current[k] = v] *)
Definition setitem (k : string) (v : value) (current : value) : M value :=
  match current with
  | VDict d => ret (VDict (dict_set k v d))
  | VList _ => raise TypeError
  end.

(** [current.append(x)] *)
Definition append (x : string) (current : value) : M value :=
  match current with
  | VList names => ret (VList (names ++ [x]))
  | VDict _ => raise AttributeError
  end.

Section builder.
Variable config : TreesonConfig.

(** Lines 197-204, on the node the walk stopped at. *)
Definition add_final (final_part type : string) (current : value)
  : M value :=
  if String.eqb type "blob" then
    let* current :=
      if contains "files" current then ret current
      else setitem "files" (VList []) current in
    let* files := getitem "files" current in
    let* files := append final_part files in
    setitem "files" files current
  else if String.eqb type "tree" then
    if contains final_part current then ret current
    else setitem final_part (VDict empty_node) current
  else ret current.

(** Lines 191-204. The source moves a reference down the tree and mutates
    the node it ends at; here the changed child is stored back under its
    key on the way up, which leaves the same tree. *)
Fixpoint place (parts : list string) (final_part type : string)
  (current : value) : M value :=
  match parts with
  | [] => add_final final_part type current
  | part :: parts' =>
      let* current :=
        if contains part current then ret current
        else setitem part (VDict empty_node) current in
      let* child := getitem part current in
      let* child := place parts' final_part type child in
      setitem part child current
  end.

(** One round of [for node in tree]. *)
Definition add_entry (node : flat_entry) (root : value) : M value :=
  let path_parts := split "/" (entry_path node) in
  if existsb (should_ignore config) path_parts then ret root
  else
    place (removelast path_parts) (List.last path_parts "")
      (entry_type node) root.

Fixpoint add_entries (tree : list flat_entry) (root : value) : M value :=
  match tree with
  | [] => ret root
  | node :: tree' =>
      let* root := add_entry node root in
      add_entries tree' root
  end.

Definition github_repo_to_json (tree : list flat_entry) : M value :=
  add_entries tree (VDict []).
End builder.

(** ** Vocabulary of the statements *)

(** The listing of a directory as the loop sees it. *)
Definition listing_of {python : Interpreter} (config : TreesonConfig)
  (path : Path) (current_depth : Z) (children : list (string * fsnode))
  : list item :=
  map (fun c =>
         Item c.1 c.2
           (if stack_exhausted config (path ++ [c.1]) c.2 (current_depth + 1)
            then raise RecursionError
            else dir_to_json config c.2 (path ++ [c.1]) (current_depth + 1)))
    children.

Definition is_directory (n : fsnode) : bool :=
  match n with Directory _ _ => true | _ => false end.

Definition is_regular (n : fsnode) : bool :=
  match n with Regular => true | _ => false end.

(** The outcome is a node with a ["files"] key, or [AttributeError], or
    [RecursionError]. *)
Definition settled (m : M dict) : Prop :=
  match m.1 with
  | inr result => dict_mem "files" result = true
  | inl AttributeError | inl RecursionError => True
  | inl _ => False
  end.

Definition is_inaccessible (n : fsnode) : bool :=
  match n with Inaccessible => true | _ => false end.

(** The key of an element whose type can be read. *)
Definition key_of {python : Interpreter} (x : item) : sort_key :=
  (negb (is_directory (item_node x)), lower (item_name x)).

Definition sort_items {python : Interpreter} (l : list item) : list item :=
  map snd (stable_sort (map (fun x => (key_of x, x)) l)).

(** The order [sorted] leaves the elements in, on decorated elements and on
    the elements themselves. *)
Definition keys_le {A} (a b : sort_key * A) : Prop := key_le a.1 b.1 = true.

Definition items_le {python : Interpreter} (x y : item) : Prop :=
  key_le (key_of x) (key_of y) = true.

(** Neither a regular file nor a directory, and [stat] does not raise. *)
Definition is_other (n : fsnode) : bool :=
  match n with Special | Dangling => true | _ => false end.

(** The elements the loop passes over without touching [result] or printing:
    the ignored ones, and the ones that are neither file nor directory. *)
Definition inert (config : TreesonConfig) (x : item) : bool :=
  should_ignore config (item_name x) || is_other (item_node x).

(** Case-insensitive alphabetical order of the names. *)
Definition names_le {python : Interpreter} (x y : item) : Prop :=
  String.leb (lower (item_name x)) (lower (item_name y)) = true.

(** ** Counting files *)




(** ** Vocabulary for the builder *)

(** The node a sequence of keys leads to, through dictionaries only. *)
Fixpoint node_at (parts : list string) (current : value) : option value :=
  match parts with
  | [] => Some current
  | part :: parts' =>
      match current with
      | VDict d =>
          match dict_get part d with
          | Some child => node_at parts' child
          | None => None
          end
      | VList _ => None
      end
  end.

(** The names an entry of a dictionary shows: its key, unless it is the
    ["files"] key of a list, and the names in its value. *)
Definition key_names (k : string) (v : value) : list string :=
  match v with
  | VList _ => if String.eqb k "files" then [] else [k]
  | VDict _ => [k]
  end.

(** Every name of a file or a directory in a value: the elements of the
    ["files"] lists and the keys that stand for directories, at any depth. *)
Fixpoint names_in (v : value) : list string :=
  match v with
  | VList names => names
  | VDict entries =>
      flat_map (fun kv => key_names kv.1 kv.2 ++ names_in kv.2) entries
  end.

(** The entries that give the root a ["files"] key, all of them kept ones:
    a blob at top level, whose name goes into the list; a tree entry at top
    level named "files"; an entry of two segments or more whose first
    segment is "files", which is walked through as a directory. *)
Definition adds_files (config : TreesonConfig) (node : flat_entry) : bool :=
  let path_parts := split "/" (entry_path node) in
  negb (existsb (should_ignore config) path_parts)
  && match path_parts with
     | [] => false
     | [final_part] =>
         String.eqb (entry_type node) "blob"
         || (String.eqb (entry_type node) "tree"
             && String.eqb final_part "files")
     | part :: _ => String.eqb part "files"
     end.


(** ** Vocabulary of the further properties *)

(** The elements of a listing the loop acts on: the regular files and the
    directories that are not ignored. *)
Definition kept_files (config : TreesonConfig) (items : list item)
  : list item :=
  List.filter
    (fun x => negb (should_ignore config (item_name x))
              && is_regular (item_node x))
    items.

Definition kept_dirs (config : TreesonConfig) (items : list item)
  : list item :=
  List.filter
    (fun x => negb (should_ignore config (item_name x))
              && is_directory (item_node x))
    items.


(** The directory levels a value opens: one for a node, none for a list. *)
Fixpoint levels (v : value) : nat :=
  match v with
  | VList _ => 0
  | VDict entries => S (max_list (map (fun kv => levels kv.2) entries))
  end.

(** Every directory can be listed and the type of every entry can be read. *)
Fixpoint all_readable (n : fsnode) : bool :=
  match n with
  | Directory listable children =>
      listable
      && forallb (fun c => negb (is_inaccessible c.2) && all_readable c.2)
           children
  | _ => true
  end.

(** [grows v v']: [v'] has everything [v] has. A list is continued, a
    dictionary keeps each of its keys with a value that has grown. *)
#[local] Unset Elimination Schemes.
Inductive grows : value -> value -> Prop :=
| grows_list names names' :
    names `prefix_of` names' -> grows (VList names) (VList names')
| grows_dict d d' :
    (forall k v,
        dict_get k d = Some v ->
        exists v', dict_get k d' = Some v' /\ grows v v') ->
    grows (VDict d) (VDict d').
#[local] Set Elimination Schemes.

(** The file [name] is listed in the directory the keys [parts] lead to. *)
Definition has_file (parts : list string) (name : string) (root : value)
  : Prop :=
  exists d names,
    node_at parts root = Some (VDict d)
    /\ dict_get "files" d = Some (VList names)
    /\ name ∈ names.

(** A tree as the data model has it, the root apart: under "files" a list,
    under every other key a node of the same kind that has a "files" key. *)
Fixpoint well_formed (v : value) : bool :=
  match v with
  | VList _ => false
  | VDict entries =>
      forallb
        (fun kv =>
           if String.eqb kv.1 "files"
           then match kv.2 with VList _ => true | VDict _ => false end
           else well_formed kv.2 && contains "files" kv.2)
        entries
  end.

(** ** The URL of a repository

    Lines 155-162 of [github_repo_to_json]. *)

(** [s.rstrip(c)] for one character [c] *)
Fixpoint rstrip (c : ascii) (s : string) : string :=
  match s with
  | EmptyString => EmptyString
  | String a s' =>
      match rstrip c s' with
      | EmptyString => if Ascii.eqb a c then EmptyString else String a EmptyString
      | r => String a r
      end
  end.

(** [s.replace(old, new)] for a non-empty [old]: the occurrences are found
    from the left and do not overlap. [skip] counts the characters of the
    occurrence just replaced that are still to pass. *)
Fixpoint replace_from (old new : string) (skip : nat) (s : string) : string :=
  match s with
  | EmptyString => EmptyString
  | String a s' =>
      match skip with
      | S skip' => replace_from old new skip' s'
      | O =>
          if String.prefix old s
          then new +:+ replace_from old new (String.length old - 1) s'
          else String a (replace_from old new 0 s')
      end
  end.

Definition replace (old new s : string) : string := replace_from old new 0 s.

(** [owner, repo = parts[-2], parts[-1]], or [None] where the source raises
    "Invalid GitHub URL format". *)
Definition owner_and_repo (url : string) : option (string * string) :=
  let url_clean := replace ".git" "" (rstrip "/" url) in
  let parts := split "/" url_clean in
  if (length parts <? 2)%nat then None
  else Some (nth (length parts - 2) parts "", List.last parts "").

(** ** The configuration of a run *)

(** The parsed command line. *)
Record Namespace : Type := {
  args_target : string;
  args_ignore : list string;
  args_branch : string;
  args_include_hidden : bool;
  args_max_depth : option Z;
  args_output : option string;
  args_compact : bool
}.

(** Lines 292-296. *)
Definition config_of_args (args : Namespace) : TreesonConfig :=
  {| ignores := DEFAULT_IGNORES ∪ list_to_set (args_ignore args);
     include_hidden := args_include_hidden args;
     max_depth := args_max_depth args |}.

(** [c in s] *)
Fixpoint has_char (c : ascii) (s : string) : bool :=
  match s with
  | EmptyString => false
  | String a s' => Ascii.eqb a c || has_char c s'
  end.

(** * Properties

    What follows holds on every interpreter: whatever [lower] does to the
    names that are not in ASCII, and wherever the stack runs out. *)

Section properties.
Context {python : Interpreter}.

(** ** The monad *)

Lemma bind_ret_l {A B} (a : A) (k : A -> M B) : bind (ret a) k = k a.
Proof. unfold bind, ret. by destruct (k a). Qed.

Lemma bind_pure {A B} (a : A) (k : A -> M B) : bind (inr a, []) k = k a.
Proof. apply bind_ret_l. Qed.

Lemma bind_raise {A B} (e : exn) (k : A -> M B) : bind (raise e) k = raise e.
Proof. done. Qed.

Lemma bind_ret_r {A} (m : M A) : bind m ret = m.
Proof.
  destruct m as [[e|a] w]; simpl; [done|]. by rewrite app_nil_r.
Qed.

Lemma bind_assoc {A B C} (m : M A) (k : A -> M B) (h : B -> M C) :
  bind (bind m k) h = bind m (fun a => bind (k a) h).
Proof.
  destruct m as [[e|a] w]; simpl; [done|].
  destruct (k a) as [[e|b] w']; simpl; [done|].
  destruct (h b) as [r w'']. by rewrite app_assoc.
Qed.

Lemma bind_ext {A B} (m : M A) (k k' : A -> M B) :
  (forall a, k a = k' a) -> bind m k = bind m k'.
Proof. intros Hk. destruct m as [[e|a] w]; cbn; [done|]. by rewrite Hk. Qed.

Lemma bind_inr {A B} (m : M A) (k : A -> M B) (b : B) (w : list diagnostic) :
  bind m k = (inr b, w) ->
  exists a w1 w2, m = (inr a, w1) /\ k a = (inr b, w2) /\ w = w1 ++ w2.
Proof.
  destruct m as [[e|a] w1]; simpl; [done|].
  destruct (k a) as [r w2] eqn:Hk. intros [= -> <-]. by exists a, w1, w2.
Qed.

Lemma bind_inl {A B} (m : M A) (k : A -> M B) (e : exn) (w : list diagnostic) :
  bind m k = (inl e, w) ->
  m = (inl e, w) \/
  exists a w1 w2, m = (inr a, w1) /\ k a = (inl e, w2) /\ w = w1 ++ w2.
Proof.
  destruct m as [[e'|a] w1]; simpl; [intros [= -> ->]; by left|].
  destruct (k a) as [r w2] eqn:Hk. intros [= -> <-]. right. by exists a, w1, w2.
Qed.

Lemma try_permission_ret {A} (a : A) (h : M A) : try_permission (ret a) h = ret a.
Proof. done. Qed.

Lemma try_permission_other {A} (e : exn) (w : list diagnostic) (h : M A) :
  is_PermissionError e = false -> try_permission (inl e, w) h = (inl e, w).
Proof. unfold try_permission. by intros ->. Qed.

(** ** Induction over the file system *)

Lemma fsnode_ind (P : fsnode -> Prop) :
  P Regular ->
  (forall listable children,
      Forall (fun c => P c.2) children -> P (Directory listable children)) ->
  P Special -> P Dangling -> P Inaccessible ->
  forall n, P n.
Proof.
  intros HR HD HS HG HI.
  fix IH 1. intros [ |listable children| | | ]; try assumption.
  apply HD. induction children as [|[name c] children IHc]; constructor.
  - apply IH.
  - apply IHc.
Qed.

(** ** [dir_to_json], one level at a time *)

Lemma dir_to_json_Directory config listable children path current_depth :
  dir_to_json config (Directory listable children) path current_depth =
  walk config path current_depth
    (if listable
     then ret (listing_of config path current_depth children)
     else raise (PermissionError path)).
Proof.
  cbn [dir_to_json path_exists is_dir]. rewrite !bind_ret_l. cbn [negb].
  by destruct listable.
Qed.

Lemma visit_eq path x result :
  visit path x result =
  match item_node x with
  | Regular => append_file (item_name x) result
  | Directory _ _ =>
      let* sub := item_walk x in
      ret (dict_set (item_name x) (VDict sub) result)
  | Inaccessible => raise (PermissionError (item_path path x))
  | Special | Dangling => ret result
  end.
Proof.
  unfold visit. destruct (item_node x); cbn [is_file is_dir];
    rewrite ?bind_ret_l; try done.
Qed.

(** ** Dictionaries *)

Lemma dict_mem_set k k' v d :
  dict_mem k (dict_set k' v d) = dict_mem k d || String.eqb k k'.
Proof.
  induction d as [|[k0 v0] d IH]; cbn.
  - by destruct (String.eqb k k').
  - destruct (String.eqb_spec k' k0) as [->|Hne]; cbn.
    + destruct (String.eqb k k0); [done|]. by rewrite orb_false_r.
    + by destruct (String.eqb k k0).
Qed.

Lemma dict_mem_get k d : dict_mem k d = true <-> is_Some (dict_get k d).
Proof.
  induction d as [|[k0 v0] d IH]; cbn.
  - split; [done|]. by intros [? ?].
  - destruct (String.eqb k k0); [|done]. split; [|done]. by eexists.
Qed.

Lemma dict_set_same k v d : dict_get k d = Some v -> dict_set k v d = d.
Proof.
  induction d as [|[k0 v0] d IH]; cbn; [done|].
  destruct (String.eqb_spec k k0) as [->|Hne].
  - by intros [= ->].
  - intros H. by rewrite IH.
Qed.

Lemma dict_mem_keys k d : dict_mem k d = true <-> k ∈ dict_keys d.
Proof.
  induction d as [|[k0 v0] d IH]; cbn.
  - split; [done|]. by intros ?%elem_of_nil.
  - rewrite elem_of_cons, <- IH.
    destruct (String.eqb_spec k k0) as [->|Hne]; [by split; [left|]|].
    split; [by right|]. by intros [?|?].
Qed.

(** Assigning to a fresh key appends it. *)
Lemma dict_set_fresh k v d : k ∉ dict_keys d -> dict_set k v d = d ++ [(k, v)].
Proof.
  induction d as [|[k0 v0] d IH]; cbn; [done|].
  rewrite not_elem_of_cons. intros [Hne Hd].
  destruct (String.eqb_spec k k0); [done|]. by rewrite IH.
Qed.

(** ** What [dir_to_json] can raise on a directory

    On a directory the traversal returns a node with a ["files"] key, or
    raises [AttributeError] (a subdirectory named "files" took the place of
    the list the next file name is appended to) or [RecursionError] (the
    directories are nested deeper than the stack has room for). *)

Lemma settled_ret result : dict_mem "files" result = true -> settled (ret result).
Proof. done. Qed.

Lemma settled_bind (m : M dict) (k : dict -> M dict) :
  settled m ->
  (forall result, dict_mem "files" result = true -> settled (k result)) ->
  settled (bind m k).
Proof.
  destruct m as [[e|r] w]; unfold settled; cbn; [done|].
  intros Hr Hk. specialize (Hk r Hr). by destruct (k r).
Qed.

Lemma append_file_settled name result :
  dict_mem "files" result = true -> settled (append_file name result).
Proof.
  intros Hm. unfold append_file.
  destruct (dict_get "files" result) as [[names|d]|] eqn:Hg.
  - unfold settled; cbn. by rewrite dict_mem_set, Hm.
  - done.
  - apply dict_mem_get in Hm. rewrite Hg in Hm. by destruct Hm.
Qed.

Lemma visit_all_settled config path items result :
  dict_mem "files" result = true ->
  Forall (fun x => is_directory (item_node x) = true -> settled (item_walk x))
    items ->
  settled (visit_all config path items result).
Proof.
  intros Hm Hitems. revert result Hm.
  induction Hitems as [|x items Hx _ IH]; intros result Hm; cbn [visit_all].
  - by apply settled_ret.
  - destruct (should_ignore config (item_name x)); [by apply IH|].
    apply settled_bind; [|done].
    rewrite visit_eq. destruct (item_node x) eqn:Hn; cbn; try done.
    + pose proof (append_file_settled (item_name x) result Hm) as Ha.
      destruct (append_file (item_name x) result) as [[e|r] w];
        unfold settled in *; cbn in *; [by destruct e|done].
    + specialize (Hx eq_refl).
      destruct (item_walk x) as [[e|sub] w]; unfold settled in *; cbn in *;
        [by destruct e|]. by rewrite dict_mem_set, Hm.
Qed.

(** ** The sorted listing *)

Lemma item_key_eq path x :
  item_key path x =
  if is_inaccessible (item_node x)
  then raise (PermissionError (item_path path x))
  else ret (key_of x).
Proof. unfold item_key, key_of. by destruct (item_node x). Qed.

(** Computing the keys stops at the first element whose [is_dir] raises. *)
Lemma decorate_item_key path l :
  decorate (item_key path) l =
  match List.find (fun x => is_inaccessible (item_node x)) l with
  | Some x => raise (PermissionError (item_path path x))
  | None => ret (map (fun x => (key_of x, x)) l)
  end.
Proof.
  induction l as [|x l IH]; cbn [decorate List.find map]; [done|].
  rewrite item_key_eq.
  destruct (is_inaccessible (item_node x)); [done|].
  rewrite bind_ret_l, IH.
  destruct (List.find _ l); [done|]. by rewrite bind_ret_l.
Qed.

Lemma sorted_item_key path l :
  sorted (item_key path) l =
  match List.find (fun x => is_inaccessible (item_node x)) l with
  | Some x => raise (PermissionError (item_path path x))
  | None => ret (sort_items l)
  end.
Proof.
  unfold sorted. rewrite decorate_item_key.
  destruct (List.find _ l); [done|]. by rewrite bind_ret_l.
Qed.

Lemma walk_listed config path current_depth l :
  walk config path current_depth (ret l) =
  if depth_reached config current_depth then ret empty_node
  else
    match List.find (fun x => is_inaccessible (item_node x)) l with
    | Some _ => (inr empty_node, [PermissionWarning path])
    | None => visit_all config path (sort_items l) empty_node
    end.
Proof.
  unfold walk. destruct (depth_reached config current_depth); [done|].
  rewrite bind_ret_l, sorted_item_key.
  destruct (List.find _ l); [done|].
  by rewrite !bind_ret_l, try_permission_ret, bind_ret_l.
Qed.

Lemma walk_denied config path current_depth :
  walk config path current_depth (raise (PermissionError path)) =
  if depth_reached config current_depth then ret empty_node
  else (inr empty_node, [PermissionWarning path]).
Proof. unfold walk. by destruct (depth_reached config current_depth). Qed.

Lemma insert_by_key_perm {A} (x : sort_key * A) l : insert_by_key x l ≡ₚ x :: l.
Proof.
  induction l as [|y l IH]; cbn; [done|].
  destruct (key_lt y.1 x.1); [|done]. rewrite IH. apply Permutation_swap.
Qed.

Lemma stable_sort_cons {A} (x : sort_key * A) l :
  stable_sort (x :: l) = insert_by_key x (stable_sort l).
Proof. done. Qed.

Lemma stable_sort_perm {A} (l : list (sort_key * A)) : stable_sort l ≡ₚ l.
Proof.
  induction l as [|x l IH]; [done|].
  rewrite stable_sort_cons, insert_by_key_perm. by rewrite IH.
Qed.

Lemma sort_items_perm l : sort_items l ≡ₚ l.
Proof.
  unfold sort_items. rewrite stable_sort_perm, map_map. cbn. by rewrite map_id.
Qed.

Lemma find_inaccessible_None l :
  List.find (fun x => is_inaccessible (item_node x)) l = None <->
  Forall (fun x => is_inaccessible (item_node x) = false) l.
Proof.
  induction l as [|x l IH]; cbn; [by split; [constructor|]|].
  destruct (is_inaccessible (item_node x)) eqn:Hx.
  - split; [done|]. intros H. inversion H; congruence.
  - rewrite IH. split; [by constructor|]. by intros H; inversion H.
Qed.

Lemma dir_to_json_settled config n :
  forall path current_depth,
    is_directory n = true -> settled (dir_to_json config n path current_depth).
Proof.
  induction n as [ |listable children IH| | | ] using fsnode_ind;
    intros path current_depth Hdir; try done.
  rewrite dir_to_json_Directory. destruct listable.
  - rewrite walk_listed.
    destruct (depth_reached config current_depth); [done|].
    destruct (List.find _ _); [done|].
    apply visit_all_settled; [done|].
    rewrite sort_items_perm. unfold listing_of. apply List.Forall_map.
    eapply Forall_impl; [exact IH|]. cbn. intros c Hc Hd.
    destruct (stack_exhausted _ _ _ _); [done|by apply Hc].
  - rewrite walk_denied. by destruct (depth_reached config current_depth).
Qed.

(** What the traversal does with a target that is not a directory. *)
Lemma dir_to_json_not_directory config n path current_depth :
  is_directory n = false ->
  dir_to_json config n path current_depth =
  match n with
  | Dangling => raise (DirectoryNotFoundError path)
  | Inaccessible => raise (PermissionError path)
  | _ => raise (TreesonError path)
  end.
Proof. by destruct n. Qed.

(** ** The order of the keys *)

Lemma ascii_compare_N a b :
  Ascii.compare a b = N.compare (N_of_ascii a) (N_of_ascii b).
Proof. done. Qed.

Lemma string_leb_trans s1 s2 s3 :
  String.leb s1 s2 = true -> String.leb s2 s3 = true -> String.leb s1 s3 = true.
Proof.
  unfold String.leb. revert s2 s3.
  induction s1 as [|c1 s1 IH]; intros [|c2 s2] [|c3 s3]; cbn; try done.
  rewrite !ascii_compare_N.
  destruct (N.compare_spec (N_of_ascii c1) (N_of_ascii c2)) as [E12|L12|G12];
    destruct (N.compare_spec (N_of_ascii c2) (N_of_ascii c3)) as [E23|L23|G23];
    try done.
  - rewrite E12, E23, N.compare_refl. apply IH.
  - intros _ _. rewrite E12. by apply N.compare_lt_iff in L23 as ->.
  - intros _ _. rewrite <- E23. by apply N.compare_lt_iff in L12 as ->.
  - intros _ _.
    assert (N_of_ascii c1 < N_of_ascii c3)%N as L13 by lia.
    by apply N.compare_lt_iff in L13 as ->.
Qed.

Lemma string_ltb_leb s1 s2 : String.ltb s2 s1 = negb (String.leb s1 s2).
Proof.
  unfold String.ltb, String.leb. rewrite (String.compare_antisym s1 s2).
  by destruct (String.compare s2 s1).
Qed.

Lemma key_le_spec k1 k2 :
  key_le k1 k2 = true <->
  (k1.1 = false /\ k2.1 = true) \/
  (k1.1 = k2.1 /\ String.leb k1.2 k2.2 = true).
Proof.
  destruct k1 as [b1 s1], k2 as [b2 s2]. unfold key_le, key_lt. cbn.
  destruct b1, b2; cbn; rewrite ?string_ltb_leb, ?negb_involutive;
    intuition congruence.
Qed.

Lemma key_le_trans k1 k2 k3 :
  key_le k1 k2 = true -> key_le k2 k3 = true -> key_le k1 k3 = true.
Proof.
  rewrite !key_le_spec.
  intros [[H1 H2]|[H1 H2]] [[H3 H4]|[H3 H4]]; try (left; split; congruence).
  right. split; [congruence|]. by eapply string_leb_trans.
Qed.

Lemma key_lt_le k1 k2 : key_lt k1 k2 = true -> key_le k1 k2 = true.
Proof.
  destruct k1 as [b1 s1], k2 as [b2 s2]. unfold key_le, key_lt. cbn.
  destruct b1, b2; cbn; try done.
  all: unfold String.ltb; rewrite (String.compare_antisym s1 s2);
    by destruct (String.compare s2 s1).
Qed.

(** ** [sorted] sorts *)

Lemma insert_by_key_sorted {A} (x : sort_key * A) l :
  StronglySorted keys_le l -> StronglySorted keys_le (insert_by_key x l).
Proof.
  induction 1 as [|y l Hl IH Hy]; cbn.
  - by repeat constructor.
  - destruct (key_lt y.1 x.1) eqn:Hlt.
    + constructor; [done|]. rewrite insert_by_key_perm.
      constructor; [|done]. by apply key_lt_le.
    + assert (keys_le x y) as Hxy by (unfold keys_le, key_le; by rewrite Hlt).
      constructor; [by constructor|]. constructor; [done|].
      eapply Forall_impl; [exact Hy|]. intros z Hz.
      unfold keys_le in *. by eapply key_le_trans.
Qed.

Lemma stable_sort_sorted {A} (l : list (sort_key * A)) :
  StronglySorted keys_le (stable_sort l).
Proof.
  induction l as [|x l IH]; [constructor|].
  rewrite stable_sort_cons. by apply insert_by_key_sorted.
Qed.

Lemma sort_items_sorted l : StronglySorted items_le (sort_items l).
Proof.
  unfold sort_items.
  assert (Forall (fun p => p.1 = key_of p.2)
            (stable_sort (map (fun x => (key_of x, x)) l))) as Hk.
  { rewrite stable_sort_perm. apply List.Forall_map. by apply Forall_true. }
  pose proof (stable_sort_sorted (map (fun x => (key_of x, x)) l)) as Hs.
  induction Hs as [|p kl Hkl IH Hp]; cbn; [constructor|].
  inversion Hk as [|? ? Hp1 Hk']; subst.
  constructor; [by apply IH|].
  apply List.Forall_map. rewrite Forall_forall in Hp, Hk' |- *.
  intros q Hq. unfold items_le. rewrite <- Hp1, <- (Hk' q Hq). by apply Hp.
Qed.

(** ** [sorted] is stable: it commutes with dropping elements *)

Lemma insert_by_key_head {A} (x : sort_key * A) l :
  Forall (fun z => key_lt z.1 x.1 = false) l -> insert_by_key x l = x :: l.
Proof. destruct 1 as [|z l Hz _]; cbn; [done|]. by rewrite Hz. Qed.

Lemma insert_by_key_filter_drop {A} (p : sort_key * A -> bool) x l :
  p x = false -> List.filter p (insert_by_key x l) = List.filter p l.
Proof.
  intros Hx. induction l as [|y l IH]; cbn; [by rewrite Hx|].
  destruct (key_lt y.1 x.1); cbn; [by rewrite IH|]. by rewrite Hx.
Qed.

Lemma insert_by_key_filter_keep {A} (p : sort_key * A -> bool) x l :
  StronglySorted keys_le l -> p x = true ->
  List.filter p (insert_by_key x l) = insert_by_key x (List.filter p l).
Proof.
  intros Hl Hx. induction Hl as [|y l Hl IH Hy]; cbn; [by rewrite Hx|].
  destruct (key_lt y.1 x.1) eqn:Hlt; cbn.
  - destruct (p y); cbn; [by rewrite Hlt, IH|done].
  - rewrite Hx. destruct (p y); cbn; [by rewrite Hlt|].
    rewrite insert_by_key_head; [done|].
    rewrite Forall_forall in Hy |- *. intros z Hz.
    apply list_elem_of_In, List.filter_In in Hz as [Hz _].
    apply list_elem_of_In in Hz. specialize (Hy z Hz).
    assert (key_le x.1 z.1 = true) as Hxz.
    { eapply key_le_trans; [|exact Hy]. unfold key_le. by rewrite Hlt. }
    unfold key_le in Hxz. by apply negb_true_iff in Hxz.
Qed.

Lemma stable_sort_filter {A} (p : sort_key * A -> bool) l :
  List.filter p (stable_sort l) = stable_sort (List.filter p l).
Proof.
  induction l as [|x l IH]; [done|].
  cbn [List.filter]. destruct (p x) eqn:Hx; rewrite !stable_sort_cons.
  - rewrite insert_by_key_filter_keep, IH; [done| |done].
    apply stable_sort_sorted.
  - by rewrite insert_by_key_filter_drop, IH.
Qed.

Lemma filter_map_comm {A B} (p : B -> bool) (f : A -> B) l :
  List.filter p (map f l) = map f (List.filter (fun a => p (f a)) l).
Proof.
  induction l as [|a l IH]; cbn; [done|]. rewrite IH. by destruct (p (f a)).
Qed.

Lemma sort_items_filter (q : item -> bool) l :
  sort_items (List.filter q l) = List.filter q (sort_items l).
Proof.
  unfold sort_items.
  rewrite (filter_map_comm q snd).
  rewrite (stable_sort_filter (fun p => q p.2)).
  by rewrite (filter_map_comm (fun p => q p.2)).
Qed.

(** ** Elements that leave no trace *)

Lemma visit_all_inert config path (q : item -> bool) items result :
  Forall (fun x => q x = false -> inert config x = true) items ->
  visit_all config path (List.filter q items) result
  = visit_all config path items result.
Proof.
  intros Hq. revert result.
  induction Hq as [|x items Hx _ IH]; intros result; cbn; [done|].
  destruct (q x) eqn:Hqx; cbn; [|specialize (Hx eq_refl)].
  - destruct (should_ignore config (item_name x)); [done|].
    destruct (try_permission _ _) as [[e|r] w]; cbn; [done|]. by rewrite IH.
  - unfold inert in Hx.
    destruct (should_ignore config (item_name x)); [done|].
    rewrite visit_eq. cbn in Hx.
    destruct (item_node x); try done; by rewrite try_permission_ret, bind_ret_l.
Qed.

Lemma find_inaccessible_filter (q : item -> bool) l :
  Forall (fun x => q x = false -> is_inaccessible (item_node x) = false) l ->
  List.find (fun x => is_inaccessible (item_node x)) (List.filter q l)
  = List.find (fun x => is_inaccessible (item_node x)) l.
Proof.
  induction 1 as [|x l Hx _ IH]; cbn; [done|].
  destruct (q x); cbn; [by rewrite IH|]. by rewrite Hx.
Qed.

(** Dropping entries from a directory drops them from what the loop sees. *)
Lemma listing_of_filter config path current_depth
    (qc : string * fsnode -> bool) children :
  listing_of config path current_depth (List.filter qc children)
  = List.filter (fun x => qc (item_name x, item_node x))
      (listing_of config path current_depth children).
Proof.
  unfold listing_of. rewrite filter_map_comm. cbn.
  f_equal. apply List.filter_ext. by intros [name n].
Qed.

Lemma dir_to_json_drop config (qc : string * fsnode -> bool) listable children
    path current_depth :
  Forall (fun c => qc c = false ->
            is_inaccessible c.2 = false /\
            (should_ignore config c.1 = true \/ is_other c.2 = true))
    children ->
  dir_to_json config (Directory listable (List.filter qc children)) path
    current_depth
  = dir_to_json config (Directory listable children) path current_depth.
Proof.
  intros Hq. rewrite !dir_to_json_Directory. destruct listable; [|done].
  rewrite !walk_listed, listing_of_filter.
  destruct (depth_reached config current_depth); [done|].
  set (q := fun x : item => qc (item_name x, item_node x)).
  assert (Forall (fun x => q x = false ->
            is_inaccessible (item_node x) = false /\ inert config x = true)
            (listing_of config path current_depth children)) as Hq'.
  { unfold listing_of. apply List.Forall_map.
    eapply Forall_impl; [exact Hq|]. intros [name n] Hc Hqc. cbn in *.
    destruct (Hc Hqc) as [Hi Ht]. split; [done|]. unfold inert. cbn.
    destruct Ht as [->| ->]; [done|]. by rewrite orb_true_r. }
  rewrite find_inaccessible_filter.
  2: { eapply Forall_impl; [exact Hq'|]. cbn. intros x Hx Hqx. by apply Hx. }
  destruct (List.find _ _); [done|].
  rewrite sort_items_filter. apply visit_all_inert.
  rewrite sort_items_perm.
  eapply Forall_impl; [exact Hq'|]. cbn. intros x Hx Hqx. by apply Hx.
Qed.

(** ** What the loop keeps *)

Lemma dict_get_set_eq k v d : dict_get k (dict_set k v d) = Some v.
Proof.
  induction d as [|[k0 v0] d IH]; cbn; [by rewrite String.eqb_refl|].
  destruct (String.eqb k k0) eqn:Hk; cbn; by rewrite Hk.
Qed.

Lemma dict_get_set_ne k k' v d :
  k <> k' -> dict_get k (dict_set k' v d) = dict_get k d.
Proof.
  intros Hne. induction d as [|[k0 v0] d IH]; cbn.
  - by apply String.eqb_neq in Hne as ->.
  - destruct (String.eqb_spec k' k0) as [->|Hne']; cbn.
    + by apply String.eqb_neq in Hne as ->.
    + by rewrite IH.
Qed.

Lemma visit_all_app config path l1 l2 result :
  visit_all config path (l1 ++ l2) result
  = bind (visit_all config path l1 result) (visit_all config path l2).
Proof.
  revert result.
  induction l1 as [|x l1 IH]; intros result; cbn [visit_all app].
  - by rewrite bind_ret_l.
  - destruct (should_ignore config (item_name x)); [done|].
    rewrite bind_assoc. apply bind_ext. intros r. apply IH.
Qed.

(** One round of the loop on an element that is not ignored. *)
Lemma visit_step_inr path x result result' w :
  try_permission (visit path x result)
    (let* _ := warn (item_path path x) in ret result) = (inr result', w) ->
  match item_node x with
  | Regular =>
      exists names, dict_get "files" result = Some (VList names) /\
        result' = dict_set "files" (VList (names ++ [item_name x])) result
  | Directory _ _ =>
      (exists sub w', item_walk x = (inr sub, w') /\
         result' = dict_set (item_name x) (VDict sub) result)
      \/ (exists p w', item_walk x = (inl (PermissionError p), w') /\
            result' = result)
  | _ => result' = result
  end.
Proof.
  rewrite visit_eq. destruct (item_node x); cbn.
  - unfold append_file.
    destruct (dict_get "files" result) as [[names|d]|]; cbn; try done.
    intros [= <- <-]. by exists names.
  - destruct (item_walk x) as [[e|sub] w'] eqn:Hw; cbn.
    + destruct e; cbn; try done. intros [= <- <-]. right. by eexists _, _.
    + intros [= <- <-]. left. by exists sub, w'.
  - by intros [= <- <-].
  - by intros [= <- <-].
  - by intros [= <- <-].
Qed.

(** Keys are never removed. *)
Lemma visit_all_mem_mono config path items k :
  forall result result' w,
    visit_all config path items result = (inr result', w) ->
    dict_mem k result = true -> dict_mem k result' = true.
Proof.
  induction items as [|x items IH]; intros result result' w; cbn.
  - by intros [= <- <-].
  - destruct (should_ignore config (item_name x)); [apply IH|].
    intros (r & w1 & w2 & Hstep & Hrest & _)%bind_inr Hk.
    eapply IH; [exact Hrest|]. apply visit_step_inr in Hstep.
    destruct (item_node x).
    + destruct Hstep as (names & _ & ->). by rewrite dict_mem_set, Hk.
    + destruct Hstep as [(sub & w' & _ & ->)|(p & w' & _ & ->)]; [|done].
      by rewrite dict_mem_set, Hk.
    + by subst.
    + by subst.
    + by subst.
Qed.

(** Past the directories, the list of file names only grows. *)
Lemma visit_all_files_mono config path items :
  Forall (fun x => is_directory (item_node x) = false) items ->
  forall result result' w names,
    visit_all config path items result = (inr result', w) ->
    dict_get "files" result = Some (VList names) ->
    exists names',
      dict_get "files" result' = Some (VList (names ++ names')).
Proof.
  induction 1 as [|x items Hx _ IH]; intros result result' w names; cbn.
  - intros [= <- <-] Hg. exists []. by rewrite app_nil_r.
  - destruct (should_ignore config (item_name x)); [apply IH|].
    intros (r & w1 & w2 & Hstep & Hrest & _)%bind_inr Hg.
    apply visit_step_inr in Hstep. destruct (item_node x); try done.
    + destruct Hstep as (names0 & Hg0 & ->). rewrite Hg in Hg0.
      injection Hg0 as <-.
      destruct (IH _ _ _ _ Hrest (dict_get_set_eq _ _ _)) as [names' Hn].
      exists (item_name x :: names'). by rewrite Hn, <- app_assoc.
    + subst. by eapply IH.
    + subst. by eapply IH.
    + subst. by eapply IH.
Qed.

Lemma StronglySorted_after {A} (R : A -> A -> Prop) l1 x l2 :
  StronglySorted R (l1 ++ x :: l2) -> Forall (R x) l2.
Proof.
  induction l1 as [|y l1 IH]; cbn; intros Hs; inversion Hs; subst; auto.
Qed.

Lemma items_le_regular x z :
  is_directory (item_node x) = false -> items_le x z ->
  is_directory (item_node z) = false.
Proof.
  unfold items_le, key_of. rewrite key_le_spec. cbn. intros ->. cbn.
  intros [[? _]|[H _]]; [done|]. by destruct (is_directory (item_node z)).
Qed.

(** A regular file that is not ignored ends in the ["files"] list, and a
    directory that is not ignored ends as a key. *)
Lemma visit_all_sorted_keeps config path items x result w :
  StronglySorted items_le items ->
  x ∈ items ->
  (is_directory (item_node x) = true -> settled (item_walk x)) ->
  should_ignore config (item_name x) = false ->
  visit_all config path items empty_node = (inr result, w) ->
  match item_node x with
  | Regular =>
      exists names, dict_get "files" result = Some (VList names) /\
        item_name x ∈ names
  | Directory _ _ => dict_mem (item_name x) result = true
  | _ => True
  end.
Proof.
  intros Hs (l1 & l2 & ->)%list_elem_of_split Hwalk Hkeep.
  rewrite visit_all_app. intros (r1 & w1 & w2 & _ & Hrest & _)%bind_inr.
  cbn in Hrest. rewrite Hkeep in Hrest.
  apply bind_inr in Hrest as (r2 & w3 & w4 & Hstep & Hrest & _).
  apply visit_step_inr in Hstep.
  destruct (item_node x) eqn:Hn; try done.
  - destruct Hstep as (names & Hg & ->).
    eapply visit_all_files_mono in Hrest as [names' Hr];
      [| |apply dict_get_set_eq].
    + eexists. split; [exact Hr|]. rewrite !elem_of_app, list_elem_of_singleton.
      by left; right.
    + apply StronglySorted_after in Hs.
      eapply Forall_impl; [exact Hs|]. cbn. intros z.
      apply items_le_regular. by rewrite Hn.
  - destruct Hstep as [(sub & w' & _ & ->)|(p & w' & Hp & _)].
    2: { specialize (Hwalk eq_refl).
         unfold settled in Hwalk. by rewrite Hp in Hwalk. }
    eapply visit_all_mem_mono; [exact Hrest|].
    by rewrite dict_mem_set, String.eqb_refl, orb_true_r.
Qed.

(** ** Directories first, each group by name *)

Lemma items_le_same_kind x y :
  is_directory (item_node x) = is_directory (item_node y) ->
  items_le x y -> names_le x y.
Proof.
  unfold items_le, names_le, key_of. rewrite key_le_spec. cbn.
  intros ->. intros [[H1 H2]|[_ H]]; [|done].
  destruct (is_directory (item_node y)); cbn in *; congruence.
Qed.

Lemma sorted_groups l :
  StronglySorted items_le l ->
  exists dirs files,
    l = dirs ++ files
    /\ Forall (fun x => is_directory (item_node x) = true) dirs
    /\ Forall (fun x => is_directory (item_node x) = false) files
    /\ StronglySorted names_le dirs
    /\ StronglySorted names_le files.
Proof.
  induction 1 as [|x l Hl IH Hx].
  - exists [], []. by repeat split; constructor.
  - destruct IH as (dirs & files & -> & Hd & Hf & Hsd & Hsf).
    destruct (is_directory (item_node x)) eqn:Hkind.
    + exists (x :: dirs), files.
      split; [done|]. split; [by constructor|]. split; [done|].
      split; [|done]. constructor; [done|].
      apply Forall_app in Hx as [Hx _].
      rewrite Forall_forall in Hx, Hd |- *. intros d Hin.
      apply items_le_same_kind; [|by apply Hx]. by rewrite Hkind, (Hd d Hin).
    + assert (Forall (fun z => is_directory (item_node z) = false)
                (dirs ++ files)) as Hall.
      { eapply Forall_impl; [exact Hx|]. cbn. intros z.
        by apply items_le_regular. }
      assert (dirs = []) as ->.
      { destruct dirs as [|d dirs]; [done|].
        inversion Hd; subst. inversion Hall; subst. congruence. }
      exists [], (x :: files). cbn in *.
      split; [done|]. split; [constructor|]. split; [by constructor|].
      split; [constructor|]. constructor; [done|].
      rewrite Forall_forall in Hx, Hall |- *. intros f Hin.
      apply items_le_same_kind; [|by apply Hx]. by rewrite Hkind, (Hall f Hin).
Qed.

(** ** Counting *)








(** ** The builder *)

Lemma split_nonempty sep s : split sep s <> [].
Proof.
  destruct s as [|c s]; cbn; [done|].
  destruct (Ascii.eqb c sep); [done|]. by destruct (split sep s).
Qed.

Lemma parts_init_last (parts : list string) :
  parts <> [] -> parts = removelast parts ++ [List.last parts ""].
Proof. apply app_removelast_last. Qed.

(** An explicit tree entry for a node that is there changes nothing. *)
Lemma place_existing parts final_part current :
  is_Some (node_at (parts ++ [final_part]) current) ->
  place parts final_part "tree" current = ret current.
Proof.
  revert current.
  induction parts as [|part parts IH]; intros current;
    cbn [place node_at app].
  - destruct current as [names|d]; [by intros [? ?]|].
    destruct (dict_get final_part d) eqn:Hg; [|by intros [? ?]]. intros _.
    unfold add_final. cbn [String.eqb Ascii.eqb Bool.eqb contains].
    assert (dict_mem final_part d = true) as ->; [|done].
    apply dict_mem_get. by rewrite Hg.
  - destruct current as [names|d]; [by intros [? ?]|].
    destruct (dict_get part d) as [child|] eqn:Hg; [|by intros [? ?]].
    intros Hchild. cbn [contains].
    assert (dict_mem part d = true) as ->.
    { apply dict_mem_get. by rewrite Hg. }
    rewrite bind_ret_l. cbn [getitem]. rewrite Hg, bind_ret_l.
    rewrite (IH child Hchild), bind_ret_l. cbn [setitem].
    by rewrite (dict_set_same _ _ _ Hg).
Qed.

(** [add_final] and [place], by the kind of node they are at. *)

Lemma add_final_VDict final_part type d :
  add_final final_part type (VDict d) =
  if String.eqb type "blob" then
    let d1 := if dict_mem "files" d then d
              else dict_set "files" (VList []) d in
    match dict_get "files" d1 with
    | Some (VList names) =>
        ret (VDict (dict_set "files" (VList (names ++ [final_part])) d1))
    | Some (VDict _) => raise AttributeError
    | None => raise KeyError
    end
  else if String.eqb type "tree" then
    ret (if dict_mem final_part d then VDict d
         else VDict (dict_set final_part (VDict empty_node) d))
  else ret (VDict d).
Proof.
  unfold add_final. cbn [contains].
  destruct (String.eqb type "blob").
  - destruct (dict_mem "files" d); cbn [setitem]; rewrite bind_ret_l;
      cbn [getitem].
    + by destruct (dict_get "files" d) as [[names|d']|].
    + by destruct (dict_get "files" _) as [[names|d']|].
  - destruct (String.eqb type "tree"); [|done].
    by destruct (dict_mem final_part d).
Qed.

Lemma add_final_VList final_part type names :
  add_final final_part type (VList names) =
  if String.eqb type "blob" then raise TypeError
  else if String.eqb type "tree" then
    if bool_decide (final_part ∈ names) then ret (VList names)
    else raise TypeError
  else ret (VList names).
Proof.
  unfold add_final. cbn [contains].
  destruct (String.eqb type "blob").
  - by destruct (bool_decide _).
  - destruct (String.eqb type "tree"); [|done]. by destruct (bool_decide _).
Qed.

Lemma place_VDict part parts final_part type d :
  place (part :: parts) final_part type (VDict d) =
  let d1 := if dict_mem part d then d
            else dict_set part (VDict empty_node) d in
  match dict_get part d1 with
  | Some child =>
      let* child := place parts final_part type child in
      ret (VDict (dict_set part child d1))
  | None => raise KeyError
  end.
Proof.
  cbn [place contains].
  destruct (dict_mem part d); cbn [setitem]; rewrite bind_ret_l; cbn [getitem].
  - destruct (dict_get part d); [|done]. by rewrite bind_ret_l.
  - destruct (dict_get part _); [|done]. by rewrite bind_ret_l.
Qed.

Lemma place_VList part parts final_part type names :
  place (part :: parts) final_part type (VList names) = raise TypeError.
Proof. cbn [place contains]. by destruct (bool_decide _). Qed.

(** ** The names in the builder's output *)

Lemma names_in_cons k v d :
  names_in (VDict ((k, v) :: d))
  = (key_names k v ++ names_in v) ++ names_in (VDict d).
Proof. done. Qed.

Lemma names_in_set (P : string -> Prop) k v d :
  Forall P (names_in (VDict d)) ->
  Forall P (key_names k v) -> Forall P (names_in v) ->
  Forall P (names_in (VDict (dict_set k v d))).
Proof.
  intros Hd Hk Hv. induction d as [|[k0 v0] d IH]; cbn [dict_set].
  - rewrite names_in_cons, !Forall_app. by repeat split.
  - rewrite names_in_cons, !Forall_app in Hd. destruct Hd as [[Hk0 Hv0] Hd].
    destruct (String.eqb_spec k k0) as [->|Hne];
      rewrite names_in_cons, !Forall_app; repeat split; try done.
    by apply IH.
Qed.

Lemma names_in_get (P : string -> Prop) k d v :
  dict_get k d = Some v ->
  Forall P (names_in (VDict d)) -> Forall P (names_in v).
Proof.
  induction d as [|[k0 v0] d IH]; cbn [dict_get]; [done|].
  rewrite names_in_cons, !Forall_app. intros Hg [[_ Hv0] Hd].
  destruct (String.eqb k k0); [by injection Hg as <-|by apply IH].
Qed.

Lemma key_names_Forall (P : string -> Prop) k v :
  P k -> Forall P (key_names k v).
Proof.
  intros Hk. unfold key_names.
  destruct v; [destruct (String.eqb k "files")|]; by repeat constructor.
Qed.

Lemma add_final_names (P : string -> Prop) final_part type current current' w :
  P final_part ->
  Forall P (names_in current) ->
  add_final final_part type current = (inr current', w) ->
  Forall P (names_in current').
Proof.
  intros Hf Hc. destruct current as [names|d].
  - rewrite add_final_VList.
    destruct (String.eqb type "blob"); [done|].
    destruct (String.eqb type "tree");
      [destruct (bool_decide _); [|done]|]; by intros [= <- <-].
  - rewrite add_final_VDict.
    destruct (String.eqb type "blob"); [|destruct (String.eqb type "tree")].
    + set (d1 := if dict_mem "files" d then d else _).
      assert (Forall P (names_in (VDict d1))) as Hd1.
      { unfold d1. destruct (dict_mem "files" d); [done|].
        apply names_in_set; by try constructor. }
      cbv zeta. destruct (dict_get "files" d1) as [[names|d']|] eqn:Hg; try done.
      intros [= <- <-]. apply names_in_set; [done|by constructor|].
      cbn [names_in]. apply Forall_app. split; [|by repeat constructor].
      by apply (names_in_get P _ _ _ Hg).
    + intros [= <- <-]. destruct (dict_mem final_part d); [done|].
      apply names_in_set; [done|by repeat constructor|by constructor].
    + by intros [= <- <-].
Qed.

Lemma place_names (P : string -> Prop) parts final_part type :
  Forall P parts -> P final_part ->
  forall current current' w,
    Forall P (names_in current) ->
    place parts final_part type current = (inr current', w) ->
    Forall P (names_in current').
Proof.
  intros Hparts Hf. induction Hparts as [|part parts Hp _ IH];
    intros current current' w Hc.
  - by apply add_final_names.
  - destruct current as [names|d]; [by rewrite place_VList|].
    rewrite place_VDict.
    set (d1 := if dict_mem part d then d else _).
    assert (Forall P (names_in (VDict d1))) as Hd1.
    { unfold d1. destruct (dict_mem part d); [done|].
      apply names_in_set; [done|by repeat constructor|by constructor]. }
    cbv zeta. destruct (dict_get part d1) as [child|] eqn:Hg; [|done].
    intros (child' & w1 & w2 & Hplace & Hret & _)%bind_inr.
    injection Hret as <- <-.
    apply names_in_set; [done|by apply key_names_Forall|].
    eapply IH; [|exact Hplace]. by apply (names_in_get P _ _ _ Hg).
Qed.

Lemma existsb_false_Forall {A} (p : A -> bool) l :
  existsb p l = false -> Forall (fun a => p a = false) l.
Proof.
  induction l as [|a l IH]; cbn; [constructor|].
  intros [Ha Hl]%orb_false_iff. constructor; [done|by apply IH].
Qed.

Lemma add_entry_names config node root root' w :
  Forall (fun name => should_ignore config name = false) (names_in root) ->
  add_entry config node root = (inr root', w) ->
  Forall (fun name => should_ignore config name = false) (names_in root').
Proof.
  intros Hroot. unfold add_entry.
  destruct (existsb _ _) eqn:Hex; [by intros [= <- <-]|].
  apply existsb_false_Forall in Hex.
  rewrite (parts_init_last _ (split_nonempty "/" (entry_path node))) in Hex.
  apply Forall_app in Hex as [Hinit Hlast].
  apply place_names; [done| |done]. by inversion Hlast.
Qed.

Lemma add_entries_names config tree :
  forall root root' w,
    Forall (fun name => should_ignore config name = false) (names_in root) ->
    add_entries config tree root = (inr root', w) ->
    Forall (fun name => should_ignore config name = false) (names_in root').
Proof.
  induction tree as [|node tree IH]; intros root root' w Hroot; cbn.
  - by intros [= <- <-].
  - intros (root1 & w1 & w2 & Hone & Hrest & _)%bind_inr.
    eapply IH; [|exact Hrest]. by eapply add_entry_names.
Qed.

(** ** The keys of the builder's root *)

Lemma add_final_keys final_part type d current' w :
  add_final final_part type (VDict d) = (inr current', w) ->
  exists d',
    current' = VDict d'
    /\ forall k,
        dict_mem k d'
        = dict_mem k d
          || (if String.eqb type "blob" then String.eqb k "files"
              else if String.eqb type "tree" then String.eqb k final_part
              else false).
Proof.
  rewrite add_final_VDict.
  destruct (String.eqb type "blob"); [|destruct (String.eqb type "tree")].
  - cbv zeta. destruct (dict_mem "files" d) eqn:Hm;
      destruct (dict_get "files" _) as [[names|d']|]; try done;
      intros [= <- <-]; eexists; (split; [done|]); intros k;
      rewrite !dict_mem_set; [done|].
    by destruct (dict_mem k d), (String.eqb k "files").
  - intros [= <- <-]. destruct (dict_mem final_part d) eqn:Hm;
      eexists; (split; [done|]); intros k; [|by rewrite dict_mem_set].
    destruct (String.eqb_spec k final_part) as [->|_];
      [by rewrite Hm|by rewrite orb_false_r].
  - intros [= <- <-]. eexists. split; [done|]. intros k.
    by rewrite orb_false_r.
Qed.

Lemma place_keys parts final_part type d current' w :
  place parts final_part type (VDict d) = (inr current', w) ->
  exists d',
    current' = VDict d'
    /\ forall k,
        dict_mem k d'
        = dict_mem k d
          || match parts with
             | [] =>
                 if String.eqb type "blob" then String.eqb k "files"
                 else if String.eqb type "tree" then String.eqb k final_part
                 else false
             | part :: _ => String.eqb k part
             end.
Proof.
  destruct parts as [|part parts]; [apply add_final_keys|].
  rewrite place_VDict. cbv zeta.
  destruct (dict_mem part d) eqn:Hm;
    (destruct (dict_get part _) as [child|]; [|done]);
    intros (child' & w1 & w2 & _ & Hret & _)%bind_inr;
    injection Hret as <- <-; eexists; (split; [done|]); intros k;
    rewrite !dict_mem_set; [done|].
  by destruct (dict_mem k d), (String.eqb k part).
Qed.

Lemma add_entry_files config node d root' w :
  add_entry config node (VDict d) = (inr root', w) ->
  exists d',
    root' = VDict d'
    /\ dict_mem "files" d' = dict_mem "files" d || adds_files config node.
Proof.
  unfold add_entry, adds_files.
  pose proof (split_nonempty "/" (entry_path node)) as Hne.
  destruct (split "/" (entry_path node)) as [|p1 parts] eqn:Hs; [done|].
  destruct (existsb _ _).
  - intros [= <- <-]. exists d. split; [done|]. by rewrite orb_false_r.
  - intros (d' & -> & Hk)%place_keys. exists d'. split; [done|].
    rewrite (Hk "files"). cbn [negb andb]. f_equal.
    destruct parts as [|p2 parts]; cbn [removelast List.last].
    + rewrite (String.eqb_sym "files" p1).
      by destruct (String.eqb (entry_type node) "blob"),
           (String.eqb (entry_type node) "tree").
    + apply String.eqb_sym.
Qed.

Lemma add_entries_files config tree :
  forall d root' w,
    add_entries config tree (VDict d) = (inr root', w) ->
    exists d',
      root' = VDict d'
      /\ dict_mem "files" d'
         = dict_mem "files" d || existsb (adds_files config) tree.
Proof.
  induction tree as [|node tree IH]; intros d root' w; cbn.
  - intros [= <- <-]. exists d. by rewrite orb_false_r.
  - intros (root1 & w1 & w2 & Hone & Hrest & _)%bind_inr.
    apply add_entry_files in Hone as (d1 & -> & H1).
    apply IH in Hrest as (d' & -> & H2). exists d'. split; [done|].
    by rewrite H2, H1, orb_assoc.
Qed.


(** * The claims *)

(** ** C2: the depth limit *)

(** C2. On a directory, when [current_depth >= max_depth] the traversal
    returns [{"files": []}] whatever the directory holds and whether or not it
    may be listed, and prints nothing: the test comes before the listing. With
    [max_depth = 0] the call on the target, at depth 0, gives exactly that
    node. *)
Theorem depth_limit_gives_empty_node config listable children path
    current_depth m :
  max_depth config = Some m ->
  (m <= current_depth)%Z ->
  dir_to_json config (Directory listable children) path current_depth
  = (inr empty_node, [])
  /\ (m = 0%Z ->
      dir_to_json config (Directory listable children) path 0
      = (inr [("files", VList [])], [])).
Proof.
  intros Hmax Hle.
  assert (Hgen : forall d, (m <= d)%Z ->
            dir_to_json config (Directory listable children) path d
            = (inr empty_node, [])).
  { intros d Hd. rewrite dir_to_json_Directory.
    assert (depth_reached config d = true) as Hr.
    { unfold depth_reached. rewrite Hmax. by apply Z.leb_le. }
    destruct listable; [rewrite walk_listed|rewrite walk_denied]; by rewrite Hr. }
  split; [by apply Hgen|]. intros ->. by apply Hgen.
Qed.

(** ** C8: the two fatal errors *)

(** C8. [dir_to_json] raises [DirectoryNotFoundError] exactly when the target
    does not exist, and then it is raised for the target itself with nothing
    printed; on a target that exists and is not a directory it raises
    [TreesonError]. Neither is caught by the [except PermissionError] clauses,
    and the two are different exceptions: the first is the subclass, the second
    the base class itself. *)
Theorem dir_to_json_fatal_errors config n path current_depth :
  ((exists p, (dir_to_json config n path current_depth).1
              = inl (DirectoryNotFoundError p))
   <-> path_exists path n = ret false)
  /\ (path_exists path n = ret false ->
      dir_to_json config n path current_depth
      = (inl (DirectoryNotFoundError path), []))
  /\ (path_exists path n = ret true -> is_dir path n = ret false ->
      dir_to_json config n path current_depth = (inl (TreesonError path), []))
  /\ (forall p q (h : M dict) w,
        DirectoryNotFoundError p <> TreesonError q
        /\ try_permission (inl (DirectoryNotFoundError p), w) h
           = (inl (DirectoryNotFoundError p), w)
        /\ try_permission (inl (TreesonError q), w) h
           = (inl (TreesonError q), w)).
Proof.
  split; [|split; [|split]].
  - split.
    + intros [p Hp]. destruct n; try done.
      pose proof (dir_to_json_settled config (Directory listable children)
                    path current_depth eq_refl) as Hs.
      unfold settled in Hs. rewrite Hp in Hs. done.
    + intros He. destruct n; try done. by exists path.
  - intros He. by destruct n.
  - intros He Hd. by destruct n.
  - done.
Qed.

(** ** C10: children that are neither file nor directory *)

(** C10. A child that is neither a regular file nor a directory (a socket, a
    FIFO, a broken symbolic link) goes through the loop without a change to
    [result] and without a line on the diagnostic stream; the traversal of a
    directory gives the same node and prints the same lines as if such
    children were not in it. *)
Theorem other_children_are_omitted config listable children path
    current_depth :
  (forall x result,
      is_other (item_node x) = true ->
      try_permission (visit path x result)
        (let* _ := warn (item_path path x) in ret result)
      = (inr result, []))
  /\ dir_to_json config
       (Directory listable
          (List.filter (fun c => negb (is_other c.2)) children))
       path current_depth
     = dir_to_json config (Directory listable children) path current_depth.
Proof.
  split.
  - intros x result Hx. rewrite visit_eq. by destruct (item_node x).
  - apply dir_to_json_drop. apply Forall_forall. intros [name n] _ Hn.
    cbn in *. apply negb_false_iff in Hn. split; [by destruct n|by right].
Qed.

(** ** C4: the ignore predicate *)

(** C4. An ignored entry does not always go without a trace. The loop skips
    it, but before the loop the key function of [sorted] asks [is_dir] of
    every entry of the listing, the ignored ones too, inside the [try] around
    the listing. Where [stat] on an ignored entry is denied (a symbolic link
    into a directory that may not be searched), the directory comes back
    empty after a warning, while without the entry it comes back with its
    file. *)
Theorem ignored_unreadable_entry_leaves_a_trace :
  let children := [(".cache", Inaccessible); ("a.txt", Regular)] in
  should_ignore default_config ".cache" = true
  /\ dir_to_json default_config (Directory true children) ["repo"] 0
     = (inr [("files", VList [])], [PermissionWarning ["repo"]])
  /\ dir_to_json default_config
       (Directory true
          (List.filter (fun c => negb (should_ignore default_config c.1))
             children))
       ["repo"] 0
     = (inr [("files", VList ["a.txt"])], []).
Proof. cbv zeta. split; [|split]; by vm_compute. Qed.

(** Apart from that, the code does what C4 says. [should_ignore] holds of a
    name exactly when hidden names are not included and the name starts with
    a dot, or the name is one of the ignore patterns; with [include_hidden]
    set, exactly when it is one of the patterns. An ignored entry whose type
    can be read leaves no trace: the traversal gives the same node and prints
    the same lines as if the entry were not in the directory. An entry that
    is not ignored is not skipped: where every entry's type can be read and
    the traversal returns, a regular file is in the ["files"] list and a
    directory is a key of the node. *)
Lemma ignored_entries_leave_no_trace config :
  (forall name,
      should_ignore config name = true <->
      (include_hidden config = false /\ starts_with_dot name = true)
      \/ name ∈ ignores config)
  /\ (forall name,
        include_hidden config = true ->
        (should_ignore config name = false <-> name ∉ ignores config))
  /\ (forall listable children path current_depth,
        Forall (fun c => should_ignore config c.1 = true ->
                         is_inaccessible c.2 = false) children ->
        dir_to_json config
          (Directory listable
             (List.filter (fun c => negb (should_ignore config c.1)) children))
          path current_depth
        = dir_to_json config (Directory listable children) path current_depth)
  /\ (forall children path current_depth name n result w,
        Forall (fun c => is_inaccessible c.2 = false) children ->
        depth_reached config current_depth = false ->
        (name, n) ∈ children ->
        should_ignore config name = false ->
        dir_to_json config (Directory true children) path current_depth
        = (inr result, w) ->
        match n with
        | Regular =>
            exists names, dict_get "files" result = Some (VList names) /\
              name ∈ names
        | Directory _ _ => dict_mem name result = true
        | _ => True
        end).
Proof.
  split; [|split; [|split]].
  - intros name. unfold should_ignore.
    destruct (include_hidden config), (starts_with_dot name); cbn;
      rewrite ?bool_decide_eq_true; intuition congruence.
  - intros name Hh. unfold should_ignore. rewrite Hh. cbn.
    by rewrite bool_decide_eq_false.
  - intros listable children path current_depth Hc.
    apply dir_to_json_drop. eapply Forall_impl; [exact Hc|].
    intros [name n] Hn Hq. cbn in *. apply negb_false_iff in Hq.
    split; [by apply Hn|by left].
  - intros children path current_depth name n result w Hacc Hdepth Hin Hkeep.
    rewrite dir_to_json_Directory, walk_listed, Hdepth.
    set (l := listing_of config path current_depth children).
    set (x := Item name n
                (if stack_exhausted config (path ++ [name]) n
                      (current_depth + 1)
                 then raise RecursionError
                 else dir_to_json config n (path ++ [name])
                        (current_depth + 1))).
    assert (List.find (fun x => is_inaccessible (item_node x)) l = None) as ->.
    { apply find_inaccessible_None. unfold l, listing_of.
      apply List.Forall_map. exact Hacc. }
    intros Hrun.
    apply (visit_all_sorted_keeps config path (sort_items l) x result w);
      try done.
    + apply sort_items_sorted.
    + rewrite sort_items_perm. unfold l, listing_of.
      apply list_elem_of_In, List.in_map_iff. exists (name, n).
      split; [done|]. by apply list_elem_of_In.
    + cbn. intros Hd. destruct (stack_exhausted _ _ _ _); [done|].
      by apply dir_to_json_settled.
Qed.

(** ** C1: the order of the children *)

Lemma key_of_ascii x :
  isascii (item_name x) = true ->
  key_of x = (negb (is_directory (item_node x)), ascii_lower (item_name x)).
Proof. intros Hx. unfold key_of. by rewrite lower_ascii. Qed.

(** C1. In a directory that can be listed and whose entries' types can be
    read, the loop runs over the entries with all directories first and
    everything else after them, each group in the alphabetical order of the
    lowered names, and nothing is lost or added by the sorting. For files
    [B.txt], [a.txt] and directories [Z], [y] the order is [y], [Z], [a.txt],
    [B.txt], and the node has its keys and its file names in that order
    (where the stack has room for the calls on the two directories). *)
Theorem children_are_visited_in_order :
  (forall config children path current_depth,
      Forall (fun c => is_inaccessible c.2 = false) children ->
      depth_reached config current_depth = false ->
      exists dirs files,
        sorted (item_key path)
          (listing_of config path current_depth children)
        = (inr (dirs ++ files), [])
        /\ dir_to_json config (Directory true children) path current_depth
           = visit_all config path (dirs ++ files) empty_node
        /\ dirs ++ files ≡ₚ listing_of config path current_depth children
        /\ Forall (fun x => is_directory (item_node x) = true) dirs
        /\ Forall (fun x => is_directory (item_node x) = false) files
        /\ StronglySorted names_le dirs
        /\ StronglySorted names_le files)
  /\ (let children :=
        [("B.txt", Regular); ("a.txt", Regular);
         ("Z", Directory true []); ("y", Directory true [])] in
      (exists l,
          sorted (item_key []) (listing_of default_config [] 0 children)
          = (inr l, [])
          /\ map item_name l = ["y"; "Z"; "a.txt"; "B.txt"])
      /\ (stack_suffices ->
          dir_to_json default_config (Directory true children) [] 0
          = (inr [("files", VList ["a.txt"; "B.txt"]);
                  ("y", VDict [("files", VList [])]);
                  ("Z", VDict [("files", VList [])])], []))).
Proof.
  split.
  - intros config children path current_depth Hacc Hdepth.
    set (l := listing_of config path current_depth children).
    assert (List.find (fun x => is_inaccessible (item_node x)) l = None)
      as Hfind.
    { apply find_inaccessible_None. unfold l, listing_of.
      apply List.Forall_map. exact Hacc. }
    destruct (sorted_groups (sort_items l) (sort_items_sorted l))
      as (dirs & files & Heq & Hd & Hf & Hsd & Hsf).
    exists dirs, files. repeat split; try done.
    + by rewrite sorted_item_key, Hfind, Heq.
    + rewrite dir_to_json_Directory, walk_listed, Hdepth. fold l.
      by rewrite Hfind, Heq.
    + rewrite <- Heq. apply sort_items_perm.
  - cbv zeta.
    set (l := listing_of default_config [] 0
                [("B.txt", Regular); ("a.txt", Regular);
                 ("Z", Directory true []); ("y", Directory true [])]).
    assert (exists y Z a B,
               sort_items l = [y; Z; a; B]
               /\ [y; Z; a; B]
                  = listing_of default_config [] 0
                      [("y", Directory true []); ("Z", Directory true []);
                       ("a.txt", Regular); ("B.txt", Regular)])
      as (y & Z & a & B & Hsort & Hitems).
    { eexists _, _, _, _. split; [|done].
      unfold sort_items, l, listing_of. cbn [map].
      rewrite !key_of_ascii by done. by vm_compute. }
    split.
    + exists [y; Z; a; B]. split.
      * rewrite sorted_item_key. fold l. by rewrite <- Hsort.
      * by rewrite Hitems.
    + intros Hroom. rewrite dir_to_json_Directory, walk_listed. fold l.
      cbn [depth_reached default_config max_depth List.find].
      rewrite Hsort, Hitems. unfold listing_of. cbn [map fst snd].
      rewrite !Hroom. by vm_compute.
Qed.

(** ** C7: permission errors *)

(** C7, amended. Once [stat] on the target itself has answered, no
    [PermissionError] comes out of [dir_to_json]; and where listing the
    directory is denied, the node is returned as it is, [{"files": []}],
    after one warning that names the directory. *)
Theorem permission_errors_below_target_are_absorbed config n path
    current_depth :
  is_inaccessible n = false ->
  (forall p,
      (dir_to_json config n path current_depth).1 <> inl (PermissionError p))
  /\ (forall children,
        n = Directory false children ->
        depth_reached config current_depth = false ->
        dir_to_json config n path current_depth
        = (inr empty_node, [PermissionWarning path])).
Proof.
  intros Hn. split.
  - intros p Hp. destruct (is_directory n) eqn:Hd.
    + pose proof (dir_to_json_settled config n path current_depth Hd) as Hs.
      unfold settled in Hs. by rewrite Hp in Hs.
    + rewrite dir_to_json_not_directory in Hp by done. by destruct n.
  - intros children -> Hdepth.
    by rewrite dir_to_json_Directory, walk_denied, Hdepth.
Qed.

(** Where the type of one child cannot be read, the key function of [sorted]
    raises inside the [try] around the listing: the directory comes back
    empty, its readable children with it. *)
Lemma unreadable_child_empties_the_node :
  dir_to_json default_config
    (Directory true [("a.txt", Regular); ("locked", Inaccessible);
                     ("b.txt", Regular)]) ["srv"] 0
  = (inr [("files", VList [])], [PermissionWarning ["srv"]]).
Proof. reflexivity. Qed.

(** ** C9: the number of files *)

(** C9 presupposes that the traversal returns. Where the stack has no room
    for the call on a subdirectory, it raises [RecursionError] instead,
    whatever is on disk. *)
Lemma deep_nesting_raises config path current_depth name listable children :
  depth_reached config current_depth = false ->
  should_ignore config name = false ->
  stack_exhausted config (path ++ [name]) (Directory listable children)
    (current_depth + 1) = true ->
  dir_to_json config (Directory true [(name, Directory listable children)])
    path current_depth
  = (inl RecursionError, []).
Proof.
  intros Hdepth Hkeep Hstack.
  rewrite dir_to_json_Directory, walk_listed, Hdepth.
  cbn [listing_of map List.find item_node is_inaccessible fst snd].
  unfold sort_items. cbn [map stable_sort foldr insert_by_key snd].
  cbn [visit_all item_name]. rewrite Hkeep, visit_eq.
  cbn [item_node item_walk]. by rewrite Hstack.
Qed.


(** ** C6: an explicit tree entry does not overwrite *)

(** C6. A tree entry whose last segment is already a key of the node it
    arrives at leaves that node as it is, and a tree entry for a path that
    already leads to a node leaves the whole root as it is, so what earlier
    entries put below it is kept. The listing with [src/main.go] (a blob)
    before [src] (a tree) gives [{"src": {"files": ["main.go"]}}]. *)
Theorem tree_entry_keeps_existing_node config :
  (forall final_part current,
      contains final_part current = true ->
      add_final final_part "tree" current = (inr current, []))
  /\ (forall path root,
        is_Some (node_at (split "/" path) root) ->
        add_entry config (FlatEntry path "tree") root = (inr root, []))
  /\ github_repo_to_json default_config
       [FlatEntry "src/main.go" "blob"; FlatEntry "src" "tree"]
     = (inr (VDict [("src", VDict [("files", VList ["main.go"])])]), []).
Proof.
  split; [|split].
  - intros final_part current Hc. unfold add_final. cbn. by rewrite Hc.
  - intros path root Hnode. unfold add_entry. cbn [entry_path entry_type].
    destruct (existsb _ _); [done|].
    rewrite (parts_init_last _ (split_nonempty "/" path)) in Hnode.
    by apply place_existing.
  - by vm_compute.
Qed.

Lemma tree_entry_keeps_existing_node_witness :
  add_entry default_config (FlatEntry "src/lib" "tree")
    (VDict [("src", VDict [("files", VList ["main.go"]);
                           ("lib", VDict [("files", VList ["a.go"])])])])
  = (inr (VDict [("src", VDict [("files", VList ["main.go"]);
                                ("lib", VDict [("files", VList ["a.go"])])])]),
     []).
Proof.
  apply (proj1 (proj2 (tree_entry_keeps_existing_node default_config))).
  vm_compute. by eexists.
Defined.

(** ** C5: ignored segments in the builder *)

(** C5. An entry one of whose path segments is ignored is dropped whole: the
    root is left as it was. So every name in what the builder returns, the
    keys that stand for directories at any depth as well as the elements of
    the ["files"] lists, is a name [should_ignore] answers [False] for, and
    none of them is one of the ignore patterns. *)
Theorem ignored_segments_never_appear config :
  (forall node root,
      existsb (should_ignore config) (split "/" (entry_path node)) = true ->
      add_entry config node root = (inr root, []))
  /\ (forall tree root w,
        github_repo_to_json config tree = (inr root, w) ->
        forall name,
          name ∈ names_in root ->
          should_ignore config name = false /\ name ∉ ignores config).
Proof.
  split.
  - intros node root Hex. unfold add_entry. by rewrite Hex.
  - intros tree root w Hrun name Hname.
    assert (should_ignore config name = false) as Hkeep.
    { eapply add_entries_names in Hrun; [|by constructor].
      rewrite Forall_forall in Hrun. by apply Hrun. }
    split; [done|]. unfold should_ignore in Hkeep.
    destruct (negb (include_hidden config) && starts_with_dot name);
      [done|]. by apply bool_decide_eq_false in Hkeep.
Qed.

Lemma ignored_segments_never_appear_witness :
  should_ignore default_config "a.py" = false
  /\ "a.py" ∉ ignores default_config.
Proof.
  refine (proj2 (ignored_segments_never_appear default_config)
            [FlatEntry "src/node_modules/x.js" "blob";
             FlatEntry "src/a.py" "blob";
             FlatEntry ".github/ci.yml" "blob";
             FlatEntry "build" "tree"]
            (VDict [("src", VDict [("files", VList ["a.py"])])]) [] _
            "a.py" _).
  - by vm_compute.
  - vm_compute. apply list_elem_of_further, list_elem_of_here.
Defined.

(** ** C3: the ["files"] key of the root *)

(** C3, as stated, fails for the builder: it starts from [{}] and gives the
    root a ["files"] key only when an entry calls for one. An empty listing
    gives [{}], and a listing of directories only gives a root without the
    key. *)
Lemma builder_root_without_files :
  github_repo_to_json default_config [] = (inr (VDict []), [])
  /\ contains "files" (VDict []) = false
  /\ github_repo_to_json default_config [FlatEntry "src" "tree"]
     = (inr (VDict [("src", VDict [("files", VList [])])]), [])
  /\ contains "files" (VDict [("src", VDict [("files", VList [])])]) = false.
Proof. by vm_compute. Qed.

(** C3, amended. Whenever [dir_to_json] returns a node, that node has a
    ["files"] key, whatever the filters and the depth limit leave in it. The
    root [github_repo_to_json] returns has a ["files"] key exactly when the
    listing holds an entry with no ignored segment that is a blob at top
    level, or a tree entry at top level named "files", or an entry of two
    segments or more whose first segment is "files"; on an empty listing it
    is [{}]. *)
Theorem root_files_key config :
  (forall n path current_depth result w,
      dir_to_json config n path current_depth = (inr result, w) ->
      dict_mem "files" result = true)
  /\ github_repo_to_json config [] = (inr (VDict []), [])
  /\ (forall tree root w,
        github_repo_to_json config tree = (inr root, w) ->
        contains "files" root = existsb (adds_files config) tree).
Proof.
  split; [|split].
  - intros n path current_depth result w Hrun.
    destruct (is_directory n) eqn:Hd.
    + pose proof (dir_to_json_settled config n path current_depth Hd) as Hs.
      unfold settled in Hs. by rewrite Hrun in Hs.
    + rewrite dir_to_json_not_directory in Hrun by done. by destruct n.
  - done.
  - intros tree root w (d' & -> & Hk)%add_entries_files.
    cbn [contains]. by rewrite Hk.
Qed.

(** * Further properties *)

(** ** The traversal engine: names in the output *)

Lemma visit_all_names config path items :
  Forall (fun x =>
            forall sub w,
              item_walk x = (inr sub, w) ->
              Forall (fun name => should_ignore config name = false)
                (names_in (VDict sub)))
    items ->
  forall result result' w,
    Forall (fun name => should_ignore config name = false)
      (names_in (VDict result)) ->
    visit_all config path items result = (inr result', w) ->
    Forall (fun name => should_ignore config name = false)
      (names_in (VDict result')).
Proof.
  induction 1 as [|x items Hx _ IH]; intros result result' w Hres;
    cbn [visit_all].
  - by intros [= <- <-].
  - destruct (should_ignore config (item_name x)) eqn:Hkeep; [by apply IH|].
    intros (r & w1 & w2 & Hstep & Hrest & _)%bind_inr.
    eapply IH; [|exact Hrest]. apply visit_step_inr in Hstep.
    destruct (item_node x).
    + destruct Hstep as (names & Hg & ->).
      apply names_in_set; [done|by constructor|]. cbn [names_in].
      apply Forall_app. split; [|by repeat constructor].
      by apply (names_in_get _ _ _ _ Hg).
    + destruct Hstep as [(sub & w' & Hw & ->)|(p & w' & _ & ->)]; [|done].
      apply names_in_set; [done|by repeat constructor|]. by eapply Hx.
    + by subst.
    + by subst.
    + by subst.
Qed.

Lemma dir_to_json_names config n :
  forall path current_depth result w,
    dir_to_json config n path current_depth = (inr result, w) ->
    Forall (fun name => should_ignore config name = false)
      (names_in (VDict result)).
Proof.
  induction n as [ |listable children IH| | | ] using fsnode_ind;
    intros path current_depth result w; try done.
  rewrite dir_to_json_Directory. destruct listable.
  - rewrite walk_listed.
    destruct (depth_reached config current_depth);
      [intros [= <- <-]; by repeat constructor|].
    destruct (List.find _ _); [intros [= <- <-]; by repeat constructor|].
    apply visit_all_names; [|by repeat constructor].
    rewrite sort_items_perm. unfold listing_of. apply List.Forall_map.
    eapply Forall_impl; [exact IH|]. cbn. intros c Hc sub w'.
    destruct (stack_exhausted _ _ _ _); [done|apply Hc].
  - rewrite walk_denied.
    destruct (depth_reached config current_depth); intros [= <- <-];
      by repeat constructor.
Qed.

(** X1. No ignored name is anywhere in what the traversal returns: at any
    depth, every key that stands for a directory and every element of a
    ["files"] list is a name [should_ignore] answers [False] for. So none of
    them is an ignore pattern, and unless hidden names are included none
    starts with a dot. *)
Theorem traversal_output_has_no_ignored_name config n path current_depth
    result w name :
  dir_to_json config n path current_depth = (inr result, w) ->
  name ∈ names_in (VDict result) ->
  should_ignore config name = false
  /\ (name ∉ ignores config)
  /\ (include_hidden config = false -> starts_with_dot name = false).
Proof.
  intros Hrun Hname.
  assert (should_ignore config name = false) as Hkeep.
  { apply dir_to_json_names in Hrun. rewrite Forall_forall in Hrun.
    by apply Hrun. }
  split; [done|]. unfold should_ignore in Hkeep.
  destruct (include_hidden config), (starts_with_dot name); cbn in Hkeep;
    try done; apply bool_decide_eq_false in Hkeep; by split.
Qed.

(** ** The traversal engine: the shape of a node *)

Lemma dict_set_files_head names names' subs :
  dict_set "files" (VList names') (("files", VList names) :: subs)
  = ("files", VList names') :: subs.
Proof. done. Qed.

Lemma dict_set_below_files name v names subs :
  name <> "files" ->
  name ∉ dict_keys subs ->
  dict_set name v (("files", VList names) :: subs)
  = ("files", VList names) :: subs ++ [(name, v)].
Proof.
  intros Hname Hfresh. cbn [dict_set].
  apply String.eqb_neq in Hname as ->. by rewrite dict_set_fresh.
Qed.

(** One round of the loop on an element that is not ignored, with what it
    prints. *)
Lemma visit_step_log path x result result' w :
  try_permission (visit path x result)
    (let* _ := warn (item_path path x) in ret result) = (inr result', w) ->
  match item_node x with
  | Regular =>
      w = []
      /\ exists names, dict_get "files" result = Some (VList names) /\
           result' = dict_set "files" (VList (names ++ [item_name x])) result
  | Directory _ _ =>
      (exists sub, item_walk x = (inr sub, w) /\
         result' = dict_set (item_name x) (VDict sub) result)
      \/ (exists p w', item_walk x = (inl (PermissionError p), w') /\
            result' = result /\
            w = w' ++ [PermissionWarning (item_path path x)])
  | Inaccessible =>
      result' = result /\ w = [PermissionWarning (item_path path x)]
  | Special | Dangling => result' = result /\ w = []
  end.
Proof.
  rewrite visit_eq. destruct (item_node x); cbn.
  - unfold append_file.
    destruct (dict_get "files" result) as [[names|d]|]; cbn; try done.
    intros [= <- <-]. split; [done|]. by exists names.
  - destruct (item_walk x) as [[e|sub] w'] eqn:Hw; cbn.
    + destruct e; cbn; try done. intros [= <- <-]. right. by eexists _, _.
    + intros [= <- <-]. left. exists sub. by rewrite app_nil_r.
  - by intros [= <- <-].
  - by intros [= <- <-].
  - by intros [= <- <-].
Qed.

(** The loop on a node that still has its list of files first: the names of
    the kept regular files are appended to the list in order, the kept
    directories are appended as keys in order, each with what its own
    traversal returned, and the lines printed are the lines of those
    traversals. *)
Lemma visit_all_shape config path items :
  Forall (fun x => is_inaccessible (item_node x) = false) items ->
  Forall (fun x => is_directory (item_node x) = true ->
                   settled (item_walk x)) items ->
  NoDup (map item_name (kept_dirs config items)) ->
  Forall (fun x => item_name x <> "files") (kept_dirs config items) ->
  forall names subs result w,
    Forall (fun x => item_name x ∉ dict_keys subs) (kept_dirs config items) ->
    visit_all config path items (("files", VList names) :: subs)
    = (inr result, w) ->
    exists walked : list (dict * list diagnostic),
      Forall2 (fun x sw => item_walk x = (inr sw.1, sw.2))
        (kept_dirs config items) walked
      /\ result
         = ("files",
            VList (names ++ map item_name (kept_files config items)))
           :: subs
              ++ zip_with (fun x sw => (item_name x, VDict sw.1))
                   (kept_dirs config items) walked
      /\ w = concat (map snd walked).
Proof.
  intros Hacc Hset. induction Hacc as [|x items Hx Hacc IH];
    intros Hdup Hnames names subs result w Hfresh; cbn [visit_all].
  - intros [= <- <-]. exists []. cbn. by rewrite !app_nil_r.
  - apply Forall_cons in Hset as [Hset_x Hset]. specialize (IH Hset).
    unfold kept_dirs, kept_files in *. cbn [List.filter] in *.
    destruct (should_ignore config (item_name x)) eqn:Hkeep;
      cbn [negb andb] in *.
    { by apply IH. }
    intros (r & w1 & w2 & Hstep & Hrest & ->)%bind_inr.
    apply visit_step_log in Hstep.
    destruct (item_node x) eqn:Hn; cbn [is_regular is_directory] in *;
      try done.
    + (* a regular file *)
      destruct Hstep as (-> & names0 & Hg & ->). cbn in Hg.
      injection Hg as <-. rewrite dict_set_files_head in Hrest.
      destruct (IH Hdup Hnames _ _ _ _ Hfresh Hrest)
        as (walked & Hwalked & -> & ->).
      exists walked. cbn [map]. by rewrite <- app_assoc.
    + (* a directory *)
      cbn [map] in Hdup. apply NoDup_cons in Hdup as [Hnew Hdup].
      apply Forall_cons in Hnames as [Hname Hnames].
      apply Forall_cons in Hfresh as [Hfresh_x Hfresh].
      destruct Hstep as [(sub & Hwalk & ->)|(p & w' & Hwalk & _)].
      2: { specialize (Hset_x eq_refl). unfold settled in Hset_x.
           by rewrite Hwalk in Hset_x. }
      rewrite dict_set_below_files in Hrest by done.
      destruct (IH Hdup Hnames names (subs ++ [(item_name x, VDict sub)])
                  result w2) as (walked & Hwalked & -> & ->); [|done|].
      { rewrite Forall_forall in Hfresh |- *. intros y Hy.
        unfold dict_keys. rewrite map_app, elem_of_app. cbn.
        intros [Hin|Hin%list_elem_of_singleton]; [by apply (Hfresh y)|].
        apply Hnew. rewrite <- Hin.
        by apply list_elem_of_In, List.in_map, list_elem_of_In. }
      exists ((sub, w1) :: walked). split; [by constructor|].
      split; [|done]. cbn [zip_with fst]. by rewrite <- app_assoc.
    + destruct Hstep as [-> ->]. by apply IH.
    + destruct Hstep as [-> ->]. by apply IH.
Qed.

Lemma NoDup_map_filter {A B} (f : A -> B) (p : A -> bool) l :
  NoDup (map f l) -> NoDup (map f (List.filter p l)).
Proof.
  induction l as [|a l IH]; cbn; [done|].
  intros [Ha Hl]%NoDup_cons. destruct (p a); cbn; [|by apply IH].
  apply NoDup_cons. split; [|by apply IH]. intros Hin. apply Ha.
  apply list_elem_of_In, List.in_map_iff in Hin as (b & Hb & Hin).
  apply List.filter_In in Hin as [Hin _].
  rewrite <- Hb. by apply list_elem_of_In, List.in_map.
Qed.

Lemma Forall_filter_of {A} (P : A -> Prop) (p : A -> bool) l :
  Forall P l -> Forall P (List.filter p l).
Proof.
  induction 1 as [|a l Ha _ IH]; cbn; [done|].
  destruct (p a); [by constructor|done].
Qed.

Lemma Forall2_with_left {A B} (P : A -> Prop) (R : A -> B -> Prop) l k :
  Forall P l -> Forall2 R l k -> Forall2 (fun a b => P a /\ R a b) l k.
Proof.
  intros Hl HR. induction HR as [|a b l k Hab _ IH]; [constructor|].
  apply Forall_cons in Hl as [Ha Hl]. constructor; [done|by apply IH].
Qed.

Lemma listing_of_names config path current_depth children :
  map item_name (listing_of config path current_depth children)
  = map fst children.
Proof. unfold listing_of. by rewrite map_map. Qed.

(** What the loop calls on an element of the listing, when it returns, is
    the traversal of that child, one level down. *)
Lemma listing_of_walk config path current_depth children :
  Forall (fun x =>
            forall sub w,
              item_walk x = (inr sub, w) ->
              dir_to_json config (item_node x) (path ++ [item_name x])
                (current_depth + 1)
              = (inr sub, w))
    (listing_of config path current_depth children).
Proof.
  unfold listing_of. apply List.Forall_map. apply Forall_true.
  intros c sub w. cbn. by destruct (stack_exhausted _ _ _ _).
Qed.

(** X2. The node of a directory, where the depth limit is not reached, every
    entry's type can be read, no two entries share a name and no kept
    directory is named "files": first the ["files"] key with the names of the
    kept regular files in sorted order and nothing else, then one key per
    kept directory in sorted order, holding what the traversal of that
    directory one level down returns; and the lines printed are the lines of
    those traversals, in that order. *)
Theorem directory_node_shape config children path current_depth result w :
  depth_reached config current_depth = false ->
  Forall (fun c => is_inaccessible c.2 = false) children ->
  NoDup (map fst children) ->
  Forall (fun c => should_ignore config c.1 = false ->
                   is_directory c.2 = true -> c.1 <> "files") children ->
  dir_to_json config (Directory true children) path current_depth
  = (inr result, w) ->
  exists walked : list (dict * list diagnostic),
    Forall2 (fun x sw =>
               dir_to_json config (item_node x) (path ++ [item_name x])
                 (current_depth + 1)
               = (inr sw.1, sw.2))
      (kept_dirs config
         (sort_items (listing_of config path current_depth children)))
      walked
    /\ result
       = ("files",
          VList (map item_name
                   (kept_files config
                      (sort_items
                         (listing_of config path current_depth children)))))
         :: zip_with (fun x sw => (item_name x, VDict sw.1))
              (kept_dirs config
                 (sort_items (listing_of config path current_depth children)))
              walked
    /\ w = concat (map snd walked).
Proof.
  intros Hdepth Hacc Hdup Hfiles.
  rewrite dir_to_json_Directory, walk_listed, Hdepth.
  set (l := listing_of config path current_depth children).
  assert (Forall (fun x => is_inaccessible (item_node x) = false) l) as Hl.
  { unfold l, listing_of. by apply List.Forall_map. }
  assert (List.find (fun x => is_inaccessible (item_node x)) l = None) as ->
    by by apply find_inaccessible_None.
  intros Hrun.
  destruct (visit_all_shape config path (sort_items l)) with
    (names := @nil string) (subs := @nil (string * value))
    (result := result) (w := w) as (walked & Hwalked & Hres & Hw);
    try done.
  - by rewrite sort_items_perm.
  - rewrite sort_items_perm. unfold l, listing_of. apply List.Forall_map.
    apply Forall_true. intros c. cbn. intros Hd.
    destruct (stack_exhausted _ _ _ _); [done|by apply dir_to_json_settled].
  - apply NoDup_map_filter. rewrite sort_items_perm.
    unfold l. by rewrite listing_of_names.
  - unfold kept_dirs. apply Forall_forall. intros x Hx.
    apply list_elem_of_In, List.filter_In in Hx as [Hx Hkept].
    apply andb_true_iff in Hkept as [Hkeep%negb_true_iff Hdir].
    apply list_elem_of_In in Hx. rewrite sort_items_perm in Hx.
    unfold l, listing_of in Hx.
    apply list_elem_of_In, List.in_map_iff in Hx as (c & <- & Hc).
    apply list_elem_of_In in Hc. rewrite Forall_forall in Hfiles.
    by apply (Hfiles c Hc).
  - apply Forall_forall. intros x _. cbn. by intros ?%elem_of_nil.
  - exists walked. split; [|by split].
    eapply Forall2_impl.
    + apply (Forall2_with_left
               (fun x => forall sub w,
                           item_walk x = (inr sub, w) ->
                           dir_to_json config (item_node x)
                             (path ++ [item_name x]) (current_depth + 1)
                           = (inr sub, w)));
        [|exact Hwalked].
      apply Forall_filter_of. rewrite sort_items_perm.
      apply listing_of_walk.
    + cbn. intros x sw [Hx Hsw]. by apply Hx.
Qed.

(** ** The traversal engine: when it raises *)

Lemma bind_fst_inr {A B} (m : M A) (k : A -> M B) a :
  m.1 = inr a -> (bind m k).1 = (k a).1.
Proof.
  destruct m as [[e|a'] w]; cbn; [done|]. intros [= ->]. by destruct (k a).
Qed.











(** ** The traversal engine: the depth limit *)

Lemma levels_cons k v d :
  levels (VDict ((k, v) :: d)) = S (levels v `max` pred (levels (VDict d))).
Proof. done. Qed.

Lemma levels_set k v d bound :
  levels (VDict d) <= S bound -> levels v <= bound ->
  levels (VDict (dict_set k v d)) <= S bound.
Proof.
  intros Hd Hv. induction d as [|[k0 v0] d IH]; cbn [dict_set].
  - rewrite levels_cons. cbn. lia.
  - rewrite levels_cons in Hd.
    destruct (String.eqb k k0); rewrite levels_cons; [lia|].
    assert (levels (VDict d) <= S bound) as Hd' by (cbn [levels] in *; lia).
    specialize (IH Hd'). lia.
Qed.

Lemma visit_all_levels config path items bound :
  Forall (fun x =>
            forall sub w,
              item_walk x = (inr sub, w) -> levels (VDict sub) <= bound)
    items ->
  forall result result' w,
    levels (VDict result) <= S bound ->
    visit_all config path items result = (inr result', w) ->
    levels (VDict result') <= S bound.
Proof.
  induction 1 as [|x items Hx _ IH]; intros result result' w Hres;
    cbn [visit_all].
  - by intros [= <- <-].
  - destruct (should_ignore config (item_name x)); [by apply IH|].
    intros (r & w1 & w2 & Hstep & Hrest & _)%bind_inr.
    eapply IH; [|exact Hrest]. apply visit_step_inr in Hstep.
    destruct (item_node x).
    + destruct Hstep as (names & _ & ->). apply levels_set; [done|].
      cbn. lia.
    + destruct Hstep as [(sub & w' & Hw & ->)|(p & w' & _ & ->)]; [|done].
      apply levels_set; [done|]. by eapply Hx.
    + by subst.
    + by subst.
    + by subst.
Qed.

(** X5. With a depth limit [m], the node returned by a call at depth [d]
    nests dictionaries at most [m - d + 1] deep, the node itself counted (and
    just the node when [d >= m]): no directory more than [m] levels below the
    target has a node in the output. *)
Theorem depth_limit_bounds_nesting config m n :
  max_depth config = Some m ->
  forall path current_depth result w,
    dir_to_json config n path current_depth = (inr result, w) ->
    (Z.of_nat (levels (VDict result)) <= Z.max 1 (m - current_depth + 1))%Z.
Proof.
  intros Hmax.
  induction n as [ |listable children IH| | | ] using fsnode_ind;
    intros path current_depth result w; try done.
  rewrite dir_to_json_Directory.
  assert (depth_reached config current_depth = (m <=? current_depth)%Z)
    as Hreached by (unfold depth_reached; by rewrite Hmax).
  destruct listable; [rewrite walk_listed|rewrite walk_denied];
    rewrite Hreached; destruct (Z.leb_spec m current_depth) as [Hle|Hlt];
    try (intros [= <- <-]; cbn; lia).
  destruct (List.find _ _); [intros [= <- <-]; cbn; lia|].
  intros Hrun.
  apply (visit_all_levels config path _ (Z.to_nat (m - current_depth)))
    in Hrun; [lia| |cbn; lia].
  rewrite sort_items_perm. unfold listing_of. apply List.Forall_map.
  eapply Forall_impl; [exact IH|]. cbn. intros c Hc sub w' Hsub.
  destruct (stack_exhausted _ _ _ _); [done|]. apply Hc in Hsub. lia.
Qed.

(** ** The traversal engine: what it prints *)

Lemma bind_log {A B} (P : diagnostic -> Prop) (m : M A) (k : A -> M B) :
  Forall P m.2 -> (forall a, Forall P (k a).2) -> Forall P (bind m k).2.
Proof.
  destruct m as [[e|a] w]; cbn; [done|]. intros Hw Hk.
  specialize (Hk a). destruct (k a) as [r w']. cbn in *.
  apply Forall_app. by split.
Qed.

Lemma try_permission_log {A} (P : diagnostic -> Prop) (m h : M A) :
  Forall P m.2 -> Forall P h.2 -> Forall P (try_permission m h).2.
Proof.
  destruct m as [[e|a] w], h as [r w']; cbn; [|done]. intros Hw Hh.
  destruct (is_PermissionError e); cbn; [|done]. apply Forall_app. by split.
Qed.

Lemma visit_all_log (P : diagnostic -> Prop) config path items :
  Forall (fun x =>
            should_ignore config (item_name x) = false ->
            (is_directory (item_node x) = true ->
             settled (item_walk x) /\ Forall P (item_walk x).2)
            /\ (is_inaccessible (item_node x) = true ->
                P (PermissionWarning (item_path path x))))
    items ->
  forall result, Forall P (visit_all config path items result).2.
Proof.
  induction 1 as [|x items Hx _ IH]; intros result; cbn [visit_all];
    [done|].
  destruct (should_ignore config (item_name x)); [done|].
  destruct (Hx eq_refl) as [Hdir Hacc].
  apply bind_log; [|done].
  rewrite visit_eq. destruct (item_node x) eqn:Hn.
  - unfold append_file. by destruct (dict_get "files" result) as [[?|?]|].
  - destruct (Hdir eq_refl) as [Hset Hlog]. unfold settled in Hset.
    destruct (item_walk x) as [[e|sub] w]; cbn in *.
    + by destruct e.
    + by rewrite app_nil_r.
  - done.
  - done.
  - cbn. constructor; [by apply Hacc|done].
Qed.

(** X6. Every line the traversal prints names the target or a path below
    it. *)
Theorem warnings_name_paths_under_target config n path current_depth :
  Forall (fun d => match d with
                   | PermissionWarning p => path `prefix_of` p
                   end)
    (dir_to_json config n path current_depth).2.
Proof.
  revert path current_depth.
  induction n as [ |listable children IH| | | ] using fsnode_ind;
    intros path current_depth; try done.
  assert (path `prefix_of` path) as Hrefl by done.
  rewrite dir_to_json_Directory. destruct listable.
  - rewrite walk_listed.
    destruct (depth_reached config current_depth); [done|].
    destruct (List.find _ _); [by repeat constructor|].
    apply visit_all_log. rewrite sort_items_perm. unfold listing_of.
    apply List.Forall_map. eapply Forall_impl; [exact IH|]. cbn.
    intros c Hc _. split.
    + intros Hdir. destruct (stack_exhausted _ _ _ _); [done|].
      split; [by apply dir_to_json_settled|].
      eapply Forall_impl; [apply Hc|]. intros [p] Hp.
      etrans; [|exact Hp]. by apply prefix_app_r.
    + intros _. unfold item_path. cbn. by apply prefix_app_r.
  - rewrite walk_denied.
    destruct (depth_reached config current_depth); by repeat constructor.
Qed.

Lemma all_readable_children listable children :
  all_readable (Directory listable children) = true ->
  listable = true
  /\ Forall (fun c => is_inaccessible c.2 = false
                      /\ all_readable c.2 = true) children.
Proof.
  cbn [all_readable]. rewrite andb_true_iff, forallb_forall.
  intros [-> Hall]. split; [done|]. apply Forall_forall.
  intros c Hc%list_elem_of_In. specialize (Hall c Hc).
  by apply andb_true_iff in Hall as [?%negb_true_iff ?].
Qed.

Lemma Forall_False_nil {A} (l : list A) : Forall (fun _ => False) l -> l = [].
Proof. by destruct 1. Qed.

(** X7. Where every directory can be listed and the type of every entry can
    be read, the traversal prints nothing, whether it returns or raises. *)
Theorem readable_tree_prints_nothing config n :
  all_readable n = true ->
  forall path current_depth,
    (dir_to_json config n path current_depth).2 = [].
Proof.
  induction n as [ |listable children IH| | | ] using fsnode_ind;
    intros Hread path current_depth; try done.
  apply all_readable_children in Hread as [-> Hread].
  rewrite dir_to_json_Directory, walk_listed.
  destruct (depth_reached config current_depth); [done|].
  assert (List.find (fun x => is_inaccessible (item_node x))
            (listing_of config path current_depth children) = None) as ->.
  { apply find_inaccessible_None. unfold listing_of. apply List.Forall_map.
    eapply Forall_impl; [exact Hread|]. by intros c [? _]. }
  apply (Forall_False_nil (A := diagnostic)). apply visit_all_log.
  rewrite sort_items_perm. unfold listing_of. apply List.Forall_map.
  rewrite Forall_forall in IH, Hread |- *. intros c Hc _. cbn.
  destruct (Hread c Hc) as [Hacc Hrec]. split.
  - intros Hdir. destruct (stack_exhausted _ _ _ _); [done|].
    split; [by apply dir_to_json_settled|].
    rewrite (IH c Hc Hrec). constructor.
  - by rewrite Hacc.
Qed.



(** ** The builder: it only adds *)

Lemma value_ind (P : value -> Prop) :
  (forall names, P (VList names)) ->
  (forall d, Forall (fun kv => P kv.2) d -> P (VDict d)) ->
  forall v, P v.
Proof.
  intros HL HD. fix IH 1. intros [names|d]; [apply HL|].
  apply HD. induction d as [|[k v] d IHd]; constructor; [apply IH|apply IHd].
Qed.

Lemma dict_get_In k d v : dict_get k d = Some v -> (k, v) ∈ d.
Proof.
  induction d as [|[k0 v0] d IH]; cbn; [done|].
  destruct (String.eqb_spec k k0) as [->|_].
  - intros [= ->]. apply list_elem_of_here.
  - intros Hg. by apply list_elem_of_further, IH.
Qed.

Lemma grows_refl v : grows v v.
Proof.
  induction v as [names|d IH] using value_ind; constructor; [done|].
  intros k v Hg. exists v. split; [done|].
  rewrite Forall_forall in IH. by apply (IH (k, v)), dict_get_In.
Qed.

Lemma grows_trans v1 : forall v2 v3, grows v1 v2 -> grows v2 v3 -> grows v1 v3.
Proof.
  induction v1 as [names|d IH] using value_ind; intros v2 v3 H12 H23.
  - inversion H12; subst. inversion H23; subst. constructor. by etrans.
  - inversion H12 as [|? d2 Hd12]; subst.
    inversion H23 as [|? d3 Hd23]; subst.
    constructor. intros k v Hg.
    destruct (Hd12 k v Hg) as (v2 & Hg2 & Hv2).
    destruct (Hd23 k v2 Hg2) as (v3 & Hg3 & Hv3).
    exists v3. split; [done|].
    rewrite Forall_forall in IH.
    by apply (IH (k, v) (dict_get_In _ _ _ Hg) v2 v3).
Qed.

(** Assigning to a key a value that has grown, or to a fresh key. *)
Lemma grows_set k v' d :
  (forall v, dict_get k d = Some v -> grows v v') ->
  grows (VDict d) (VDict (dict_set k v' d)).
Proof.
  intros Hk. constructor. intros k0 v0 Hg.
  destruct (String.eqb_spec k0 k) as [->|Hne].
  - exists v'. split; [apply dict_get_set_eq|by apply Hk].
  - exists v0. split; [by rewrite dict_get_set_ne|apply grows_refl].
Qed.

Lemma dict_mem_false_get k d : dict_mem k d = false -> dict_get k d = None.
Proof.
  intros Hm. destruct (dict_get k d) eqn:Hg; [|done].
  assert (dict_mem k d = true) by (apply dict_mem_get; by rewrite Hg).
  congruence.
Qed.

Lemma add_final_grows final_part type current current' w :
  add_final final_part type current = (inr current', w) ->
  grows current current'.
Proof.
  destruct current as [names|d].
  - rewrite add_final_VList.
    destruct (String.eqb type "blob"); [done|].
    destruct (String.eqb type "tree");
      [destruct (bool_decide _); [|done]|]; intros [= <- <-];
      apply grows_refl.
  - rewrite add_final_VDict.
    destruct (String.eqb type "blob"); [|destruct (String.eqb type "tree")].
    + cbv zeta. destruct (dict_mem "files" d) eqn:Hm.
      * destruct (dict_get "files" d) as [[names|d']|] eqn:Hg; try done.
        intros [= <- <-]. apply grows_set. intros v. rewrite Hg.
        intros [= <-]. constructor. by apply prefix_app_r.
      * rewrite dict_get_set_eq. intros [= <- <-].
        eapply grows_trans; apply grows_set; intros v.
        -- by rewrite (dict_mem_false_get _ _ Hm).
        -- rewrite dict_get_set_eq. intros [= <-]. constructor.
           by exists [final_part].
    + intros [= <- <-]. destruct (dict_mem final_part d) eqn:Hm;
        [apply grows_refl|].
      apply grows_set. intros v. by rewrite (dict_mem_false_get _ _ Hm).
    + intros [= <- <-]. apply grows_refl.
Qed.

Lemma place_grows parts final_part type :
  forall current current' w,
    place parts final_part type current = (inr current', w) ->
    grows current current'.
Proof.
  induction parts as [|part parts IH]; intros current current' w.
  - apply add_final_grows.
  - destruct current as [names|d]; [by rewrite place_VList|].
    rewrite place_VDict. cbv zeta.
    destruct (dict_mem part d) eqn:Hm.
    + destruct (dict_get part d) as [child|] eqn:Hg; [|done].
      intros (child' & w1 & w2 & Hplace & Hret & _)%bind_inr.
      injection Hret as <- <-. apply grows_set. intros v. rewrite Hg.
      intros [= <-]. by eapply IH.
    + rewrite dict_get_set_eq.
      intros (child' & w1 & w2 & Hplace & Hret & _)%bind_inr.
      injection Hret as <- <-.
      eapply grows_trans; apply grows_set; intros v.
      * by rewrite (dict_mem_false_get _ _ Hm).
      * rewrite dict_get_set_eq. intros [= <-]. by eapply IH.
Qed.

Lemma add_entry_grows config node root root' w :
  add_entry config node root = (inr root', w) -> grows root root'.
Proof.
  unfold add_entry. destruct (existsb _ _).
  - intros [= <- <-]. apply grows_refl.
  - apply place_grows.
Qed.

Lemma add_entries_grows config tree :
  forall root root' w,
    add_entries config tree root = (inr root', w) -> grows root root'.
Proof.
  induction tree as [|node tree IH]; intros root root' w; cbn.
  - intros [= <- <-]. apply grows_refl.
  - intros (root1 & w1 & w2 & Hone & Hrest & _)%bind_inr.
    eapply grows_trans; [by eapply add_entry_grows|by eapply IH].
Qed.

Lemma grows_node_at parts :
  forall v v' node,
    grows v v' -> node_at parts v = Some node ->
    exists node', node_at parts v' = Some node' /\ grows node node'.
Proof.
  induction parts as [|part parts IH]; intros v v' node Hgrows; cbn.
  - intros [= <-]. by exists v'.
  - destruct v as [names|d]; [done|].
    destruct (dict_get part d) as [child|] eqn:Hg; [|done].
    inversion Hgrows as [|? d' Hd]; subst.
    destruct (Hd part child Hg) as (child' & -> & Hchild).
    by apply IH.
Qed.

Lemma grows_has_file parts name v v' :
  grows v v' -> has_file parts name v -> has_file parts name v'.
Proof.
  intros Hgrows (d & names & Hnode & Hfiles & Hname).
  destruct (grows_node_at parts v v' _ Hgrows Hnode) as (node' & Hnode' & Hg).
  inversion Hg as [|? d' Hd]; subst.
  destruct (Hd "files" _ Hfiles) as (files' & Hfiles' & Hgf).
  inversion Hgf as [? names' Hpre|]; subst.
  exists d', names'. repeat split; try done.
  destruct Hpre as [more ->]. apply elem_of_app. by left.
Qed.

(** X9. The loop of the builder only adds: whatever the entries and the root
    it starts from, when it returns, every key of every node is still there
    with a value that has grown, and every list of files is continued. So a
    file listed in a directory stays listed there, and a path that led to a
    node still leads to one. *)
Theorem builder_only_adds config tree root root' w :
  add_entries config tree root = (inr root', w) ->
  grows root root'
  /\ (forall parts name,
        has_file parts name root -> has_file parts name root')
  /\ (forall parts node,
        node_at parts root = Some node -> is_Some (node_at parts root')).
Proof.
  intros Hrun%add_entries_grows. split; [done|]. split.
  - intros parts name. by apply grows_has_file.
  - intros parts node Hnode.
    destruct (grows_node_at parts root root' node Hrun Hnode) as (n' & -> & _).
    by eexists.
Qed.

Lemma builder_only_adds_witness :
  has_file ["src"] "main.go"
    (VDict [("src", VDict [("files", VList ["main.go"; "util.go"]);
                           ("lib", VDict [("files", VList [])])]);
            ("files", VList ["README.md"])]).
Proof.
  refine (proj1 (proj2 (builder_only_adds default_config
                          [FlatEntry "src/util.go" "blob";
                           FlatEntry "src/lib" "tree";
                           FlatEntry "README.md" "blob";
                           FlatEntry "src" "tree"]
                          (VDict [("src", VDict [("files", VList ["main.go"])])])
                          _ [] _))
            ["src"] "main.go" _).
  - by vm_compute.
  - eexists _, _. split; [reflexivity|]. split; [reflexivity|].
    apply list_elem_of_here.
Defined.

(** ** The builder: what goes in is found *)

Lemma place_blob_found parts final_part :
  forall current current' w,
    place parts final_part "blob" current = (inr current', w) ->
    has_file parts final_part current'.
Proof.
  induction parts as [|part parts IH]; intros current current' w.
  - destruct current as [names|d]; cbn [place];
      [by rewrite add_final_VList|].
    rewrite add_final_VDict. cbn [String.eqb Ascii.eqb Bool.eqb]. cbv zeta.
    destruct (dict_get "files" _) as [[names|d']|]; try done.
    intros [= <- <-]. eexists _, _. split; [done|].
    split; [apply dict_get_set_eq|].
    apply elem_of_app. right. apply list_elem_of_here.
  - destruct current as [names|d]; [by rewrite place_VList|].
    rewrite place_VDict. cbv zeta.
    destruct (dict_get part _) as [child|]; [|done].
    intros (child' & w1 & w2 & Hplace & Hret & _)%bind_inr.
    injection Hret as <- <-.
    destruct (IH _ _ _ Hplace) as (d' & names & Hnode & Hfiles & Hname).
    exists d', names. split; [|done]. cbn [node_at].
    by rewrite dict_get_set_eq.
Qed.

Lemma add_entries_blob_found config tree :
  forall root root' w node,
    add_entries config tree root = (inr root', w) ->
    node ∈ tree ->
    entry_type node = "blob" ->
    existsb (should_ignore config) (split "/" (entry_path node)) = false ->
    has_file (removelast (split "/" (entry_path node)))
      (List.last (split "/" (entry_path node)) "") root'.
Proof.
  induction tree as [|node0 tree IH]; intros root root' w node; cbn.
  - by intros _ ?%elem_of_nil.
  - intros (root1 & w1 & w2 & Hone & Hrest & _)%bind_inr
      [->|Hin]%elem_of_cons Htype Hkept.
    + eapply grows_has_file; [by eapply add_entries_grows|].
      unfold add_entry in Hone. rewrite Hkept, Htype in Hone.
      by eapply place_blob_found.
    + by eapply IH.
Qed.

(** X10. Every kept blob of the listing is in what the builder returns: the
    segments before the last lead to a node, and the last segment is in that
    node's list of files. *)
Theorem every_kept_blob_is_listed config tree root w node :
  github_repo_to_json config tree = (inr root, w) ->
  node ∈ tree ->
  entry_type node = "blob" ->
  existsb (should_ignore config) (split "/" (entry_path node)) = false ->
  has_file (removelast (split "/" (entry_path node)))
    (List.last (split "/" (entry_path node)) "") root.
Proof. apply add_entries_blob_found. Qed.

Lemma every_kept_blob_is_listed_witness :
  has_file ["src"; "treeson"] "cli.py"
    (VDict [("src", VDict [("files", VList ["main.py"]);
                           ("treeson", VDict [("files", VList ["cli.py"])])]);
            ("files", VList ["README.md"])]).
Proof.
  refine (every_kept_blob_is_listed default_config
            [FlatEntry "src/main.py" "blob";
             FlatEntry ".gitignore" "blob";
             FlatEntry "src/treeson/cli.py" "blob";
             FlatEntry "README.md" "blob"]
            _ [] (FlatEntry "src/treeson/cli.py" "blob") _ _ _ _).
  - by vm_compute.
  - apply list_elem_of_further, list_elem_of_further, list_elem_of_here.
  - reflexivity.
  - reflexivity.
Defined.

(** ** The builder: when it returns *)

Lemma well_formed_cons k v d :
  well_formed (VDict ((k, v) :: d))
  = (if String.eqb k "files"
     then match v with VList _ => true | VDict _ => false end
     else well_formed v && contains "files" v)
    && well_formed (VDict d).
Proof. done. Qed.

Lemma well_formed_get k v d :
  well_formed (VDict d) = true -> dict_get k d = Some v ->
  if String.eqb k "files"
  then exists names, v = VList names
  else exists d', v = VDict d' /\ well_formed v = true
                  /\ dict_mem "files" d' = true.
Proof.
  induction d as [|[k0 v0] d IH]; [done|].
  rewrite well_formed_cons, andb_true_iff. cbn [dict_get]. intros [H0 Hd].
  destruct (String.eqb_spec k k0) as [->|_]; [|by apply IH].
  intros [= ->]. destruct (String.eqb k0 "files").
  - destruct v; [by eexists|done].
  - apply andb_true_iff in H0 as [Hv Hc]. destruct v as [|d']; [done|].
    by exists d'.
Qed.

Lemma well_formed_set k v d :
  well_formed (VDict d) = true ->
  (if String.eqb k "files"
   then match v with VList _ => true | VDict _ => false end
   else well_formed v && contains "files" v) = true ->
  well_formed (VDict (dict_set k v d)) = true.
Proof.
  intros Hd Hv. induction d as [|[k0 v0] d IH]; cbn [dict_set].
  - by rewrite well_formed_cons, Hv.
  - rewrite well_formed_cons, andb_true_iff in Hd. destruct Hd as [H0 Hd].
    destruct (String.eqb_spec k k0) as [->|_]; rewrite well_formed_cons.
    + by rewrite Hv.
    + by rewrite H0, IH.
Qed.

Lemma add_final_well_formed final_part type d :
  final_part <> "files" ->
  well_formed (VDict d) = true ->
  exists d',
    add_final final_part type (VDict d) = (inr (VDict d'), [])
    /\ well_formed (VDict d') = true
    /\ (dict_mem "files" d = true -> dict_mem "files" d' = true).
Proof.
  intros Hfinal Hd. rewrite add_final_VDict.
  destruct (String.eqb type "blob"); [|destruct (String.eqb type "tree")].
  - cbv zeta. destruct (dict_mem "files" d) eqn:Hm.
    + apply dict_mem_get in Hm as [v Hg]. rewrite Hg.
      destruct (well_formed_get _ _ _ Hd Hg) as [names ->].
      eexists. split; [done|]. split; [by apply well_formed_set|].
      intros _. by rewrite dict_mem_set, orb_true_r.
    + rewrite dict_get_set_eq. eexists. split; [done|]. split; [|done].
      apply well_formed_set; [|done]. by apply well_formed_set.
  - destruct (dict_mem final_part d); eexists; (split; [done|]);
      (split; [|try done]); try done.
    + apply well_formed_set; [done|].
      by apply String.eqb_neq in Hfinal as ->.
    + intros Hm. by rewrite dict_mem_set, Hm.
  - by exists d.
Qed.

Lemma place_well_formed parts final_part type :
  Forall (fun part => part <> "files") parts ->
  final_part <> "files" ->
  forall d,
    well_formed (VDict d) = true ->
    exists d',
      place parts final_part type (VDict d) = (inr (VDict d'), [])
      /\ well_formed (VDict d') = true
      /\ (dict_mem "files" d = true -> dict_mem "files" d' = true).
Proof.
  intros Hparts Hfinal. induction Hparts as [|part parts Hpart _ IH];
    intros d Hd.
  - by apply add_final_well_formed.
  - rewrite place_VDict. cbv zeta.
    set (d1 := if dict_mem part d then d else _).
    assert (well_formed (VDict d1) = true) as Hd1.
    { unfold d1. destruct (dict_mem part d); [done|].
      apply well_formed_set; [done|].
      by apply String.eqb_neq in Hpart as ->. }
    assert (is_Some (dict_get part d1)) as [child Hg].
    { apply dict_mem_get. unfold d1. destruct (dict_mem part d) eqn:Hm;
        [done|]. by rewrite dict_mem_set, String.eqb_refl, orb_true_r. }
    rewrite Hg. pose proof (well_formed_get _ _ _ Hd1 Hg) as Hchild.
    apply String.eqb_neq in Hpart. rewrite Hpart in Hchild.
    destruct Hchild as (dc & -> & Hdc & Hfiles).
    destruct (IH dc Hdc) as (dc' & -> & Hdc' & Hfiles').
    rewrite bind_pure. eexists. split; [done|]. split.
    + apply well_formed_set; [done|]. rewrite Hpart, Hdc'. cbn.
      by apply Hfiles'.
    + intros Hm. rewrite dict_mem_set. unfold d1.
      destruct (dict_mem part d); [by rewrite Hm|].
      by rewrite dict_mem_set, Hm.
Qed.

Lemma Forall_init_last (P : string -> Prop) (parts : list string) :
  parts <> [] -> Forall P parts ->
  Forall P (removelast parts) /\ P (List.last parts "").
Proof.
  intros Hne Hall. rewrite (parts_init_last _ Hne) in Hall.
  apply Forall_app in Hall as [Hinit Hlast]. split; [done|].
  by inversion Hlast.
Qed.

Lemma add_entries_well_formed config tree :
  Forall (fun node =>
            existsb (should_ignore config) (split "/" (entry_path node))
            = false ->
            "files" ∉ split "/" (entry_path node))
    tree ->
  forall d,
    well_formed (VDict d) = true ->
    exists d',
      add_entries config tree (VDict d) = (inr (VDict d'), [])
      /\ well_formed (VDict d') = true.
Proof.
  induction 1 as [|node tree Hnode _ IH]; intros d Hd; cbn [add_entries].
  - by exists d.
  - unfold add_entry.
    destruct (existsb _ _) eqn:Hkept.
    + rewrite bind_ret_l. by apply IH.
    + specialize (Hnode eq_refl).
      assert (Forall (fun part => part <> "files")
                (split "/" (entry_path node))) as Hparts.
      { apply Forall_forall. intros part Hin ->. by apply Hnode. }
      apply Forall_init_last in Hparts as [Hinit Hlast];
        [|apply split_nonempty].
      destruct (place_well_formed _ _ (entry_type node) Hinit Hlast d Hd)
        as (d1 & -> & Hd1 & _).
      rewrite bind_pure. by apply IH.
Qed.

(** X11. The builder returns, with nothing raised, for every listing in
    which no kept entry has a path segment named "files"; and what it
    returns is a tree as the data model describes it, the root apart: under
    every "files" key a list, under every other key a node that has a
    "files" key. *)
Theorem builder_returns_without_files_segment config tree :
  Forall (fun node =>
            existsb (should_ignore config) (split "/" (entry_path node))
            = false ->
            "files" ∉ split "/" (entry_path node))
    tree ->
  exists root,
    github_repo_to_json config tree = (inr root, [])
    /\ well_formed root = true.
Proof.
  intros Htree.
  destruct (add_entries_well_formed config tree Htree [] eq_refl)
    as (d' & Hrun & Hwf).
  by exists (VDict d').
Qed.

Lemma builder_returns_without_files_segment_witness :
  exists root,
    github_repo_to_json default_config
      [FlatEntry "src/a/b.py" "blob"; FlatEntry "src" "tree";
       FlatEntry ".github/files/x" "blob"; FlatEntry "docs" "tree";
       FlatEntry "vendor/lib" "commit"; FlatEntry "README" "blob"]
    = (inr root, [])
    /\ well_formed root = true.
Proof.
  refine (builder_returns_without_files_segment default_config _ _).
  repeat constructor; intros Hkept; try done;
    vm_compute; intros Hin;
    repeat (apply elem_of_cons in Hin as [Hin|Hin]; [done|]);
    by apply elem_of_nil in Hin.
Defined.

(** ** The command line: the configuration *)

Lemma default_ignores_elem name :
  name ∈ DEFAULT_IGNORES <->
  name ∈ [".git"; "__pycache__"; ".DS_Store"; "node_modules"; "venv";
          ".venv"; ".idea"; ".pytest_cache"; ".mypy_cache"; ".tox"; "dist";
          "build"; "*.egg-info"].
Proof. unfold DEFAULT_IGNORES. by rewrite elem_of_list_to_set. Qed.

Lemma egg_info_is_literal stem :
  stem +:+ ".egg-info" ∈ DEFAULT_IGNORES -> stem = "*".
Proof.
  rewrite default_ignores_elem. intros Hin.
  repeat (apply elem_of_cons in Hin as [Hin|Hin];
          [repeat (destruct stem as [|? stem]; cbn in Hin;
                   [try discriminate Hin
                   |try discriminate Hin; injection Hin as ? Hin]);
           by subst
          |]).
  by apply elem_of_nil in Hin.
Qed.

(** X12. The configuration [main] builds ignores a name exactly when hidden
    names are not asked for and the name starts with a dot, or the name is
    one of the default patterns, or it was given with [--ignore]. So the
    options only add to the defaults: [--include-hidden] does not bring back
    [.git] or [.venv]. And the patterns are compared as they are written:
    of the names that end in [.egg-info], the default list holds only
    [*.egg-info] itself. *)
Theorem command_line_ignores args name :
  (should_ignore (config_of_args args) name = true <->
   (args_include_hidden args = false /\ starts_with_dot name = true)
   \/ name ∈ DEFAULT_IGNORES
   \/ name ∈ args_ignore args)
  /\ (forall stem,
        name = stem +:+ ".egg-info" ->
        stem <> "*" ->
        starts_with_dot name = false ->
        name ∉ args_ignore args ->
        should_ignore (config_of_args args) name = false).
Proof.
  assert (should_ignore (config_of_args args) name = true <->
          (args_include_hidden args = false /\ starts_with_dot name = true)
          \/ name ∈ DEFAULT_IGNORES
          \/ name ∈ args_ignore args) as Hiff.
  { unfold should_ignore, config_of_args. cbn [include_hidden ignores].
    destruct (args_include_hidden args), (starts_with_dot name); cbn;
      rewrite ?bool_decide_eq_true, ?elem_of_union, ?elem_of_list_to_set;
      intuition congruence. }
  split; [done|].
  intros stem -> Hstem Hdot Huser.
  apply not_true_is_false. rewrite Hiff.
  intros [[_ Hd]|[Hd|Hu]]; [congruence| |done].
  by apply egg_info_is_literal in Hd.
Qed.

Lemma command_line_ignores_witness :
  should_ignore
    (config_of_args
       {| args_target := "."; args_ignore := ["tmp"]; args_branch := "main";
          args_include_hidden := true; args_max_depth := None;
          args_output := None; args_compact := false |})
    "treeson.egg-info" = false.
Proof.
  refine (proj2 (command_line_ignores _ "treeson.egg-info") "treeson" _ _ _ _).
  - reflexivity.
  - discriminate.
  - reflexivity.
  - by intros [=]%list_elem_of_singleton.
Defined.

(** ** The URL of a repository *)

Lemma string_app_cons x (a b : string) :
  String x a +:+ b = String x (a +:+ b).
Proof. done. Qed.

Lemma string_app_nil_l (b : string) : "" +:+ b = b.
Proof. done. Qed.

Lemma string_app_assoc (a b c : string) : (a +:+ b) +:+ c = a +:+ (b +:+ c).
Proof.
  induction a as [|x a IH]; [done|]. rewrite !string_app_cons. by f_equal.
Qed.

Lemma has_char_app c a b : has_char c (a +:+ b) = has_char c a || has_char c b.
Proof.
  induction a as [|x a IH]; [done|]. rewrite string_app_cons. cbn.
  by rewrite IH, Bool.orb_assoc.
Qed.

Lemma rstrip_no_char c s : has_char c s = false -> rstrip c s = s.
Proof.
  induction s as [|a s IH]; cbn; [done|].
  intros [Ha Hs]%orb_false_iff. rewrite (IH Hs), Ha. by destruct s.
Qed.

Lemma rstrip_app c a b :
  rstrip c b <> "" -> rstrip c (a +:+ b) = a +:+ rstrip c b.
Proof.
  intros Hb. induction a as [|x a IH]; [done|].
  rewrite !string_app_cons. cbn [rstrip]. rewrite IH.
  destruct (a +:+ rstrip c b) eqn:Hab; [|done].
  destruct a; [|done]. rewrite string_app_nil_l in Hab. congruence.
Qed.

Lemma rstrip_snoc c s : rstrip c (s +:+ String c "") = rstrip c s.
Proof.
  induction s as [|a s IH].
  - rewrite string_app_nil_l. cbn. by rewrite Ascii.eqb_refl.
  - rewrite string_app_cons. cbn [rstrip]. by rewrite IH.
Qed.

Lemma replace_dot_free a s :
  has_char "." a = false ->
  replace_from ".git" "" 0 (a +:+ s) = a +:+ replace_from ".git" "" 0 s.
Proof.
  induction a as [|x a IH]; [done|]. rewrite !string_app_cons.
  cbn [has_char]. intros [Hx Ha]%orb_false_iff.
  cbn [replace_from String.prefix].
  destruct (ascii_dec "." x) as [<-|_]; [done|]. by rewrite IH.
Qed.

Lemma replace_dot_git s :
  replace_from ".git" "" 0 (".git" +:+ s) = replace_from ".git" "" 0 s.
Proof.
  change (".git" +:+ s) with (String "." (String "g" (String "i" (String "t" s)))).
  cbn. destruct s; [done|]. cbn. by destruct s.
Qed.

Lemma split_no_sep c a : has_char c a = false -> split c a = [a].
Proof.
  induction a as [|x a IH]; cbn; [done|].
  intros [Hx Ha]%orb_false_iff. by rewrite Hx, (IH Ha).
Qed.

Lemma split_app c a s :
  has_char c a = false ->
  split c (a +:+ String c s) = a :: split c s.
Proof.
  induction a as [|x a IH].
  - intros _. rewrite string_app_nil_l. cbn. by rewrite Ascii.eqb_refl.
  - rewrite string_app_cons. cbn.
    intros [Hx Ha]%orb_false_iff. by rewrite Hx, (IH Ha).
Qed.

Lemma rstrip_keeps c a b :
  has_char c b = false -> b <> "" -> rstrip c (a +:+ b) = a +:+ b.
Proof.
  intros Hb Hne. rewrite rstrip_app; rewrite (rstrip_no_char _ _ Hb); done.
Qed.

Lemma owner_and_repo_github owner repo cleaned :
  has_char "/" owner = false ->
  has_char "/" repo = false ->
  repo <> "" ->
  replace ".git" "" ("https://github.com/" +:+ owner +:+ "/" +:+ repo)
  = "https://github.com/" +:+ owner +:+ "/" +:+ cleaned ->
  has_char "/" cleaned = false ->
  owner_and_repo ("https://github.com/" +:+ owner +:+ "/" +:+ repo)
  = Some (owner, cleaned).
Proof.
  intros Howner Hrepo Hne Hclean Hcleaned. unfold owner_and_repo.
  assert (rstrip "/" ("https://github.com/" +:+ owner +:+ "/" +:+ repo)
          = "https://github.com/" +:+ owner +:+ "/" +:+ repo) as ->.
  { rewrite <- (string_app_assoc owner), <- string_app_assoc.
    by apply rstrip_keeps. }
  rewrite Hclean.
  change ("https://github.com/" +:+ owner +:+ "/" +:+ cleaned)
    with ("https:" +:+ String "/" ("" +:+ String "/"
            ("github.com" +:+ String "/" (owner +:+ String "/" cleaned)))).
  rewrite !split_app, split_no_sep by done. done.
Qed.

Lemma replace_github_prefix s :
  replace ".git" "" ("https://github.com/" +:+ s)
  = "https://github.com/" +:+ replace ".git" "" s.
Proof. done. Qed.

(** X16. The owner and the repository taken from a URL. For a URL
    [https://github.com/owner/repo] they are [owner] and [repo]. Every
    [.git] in the URL is dropped, not only one at the end: with a
    repository written [stem.git] the name taken is [stem], and written
    [stem.gitrest] it is [stemrest]. Slashes at the end of the URL change
    nothing. (The owner and the stem are taken without slash or dot, the
    rest without slash and with nothing for [replace] to remove.) *)
Theorem owner_and_repo_of_github_url owner :
  has_char "/" owner = false ->
  has_char "." owner = false ->
  (forall repo,
      has_char "/" repo = false -> repo <> "" ->
      replace ".git" "" repo = repo ->
      owner_and_repo ("https://github.com/" +:+ owner +:+ "/" +:+ repo)
      = Some (owner, repo))
  /\ (forall stem rest,
        has_char "/" stem = false -> has_char "." stem = false ->
        stem <> "" ->
        has_char "/" rest = false ->
        replace ".git" "" rest = rest ->
        owner_and_repo
          ("https://github.com/" +:+ owner +:+ "/" +:+ stem +:+ ".git"
           +:+ rest)
        = Some (owner, stem +:+ rest))
  /\ (forall url, owner_and_repo (url +:+ "/") = owner_and_repo url).
Proof.
  intros Hslash Hdot. split; [|split].
  - intros repo Hrepo Hne Hclean.
    apply owner_and_repo_github; try done.
    rewrite replace_github_prefix. unfold replace in *.
    rewrite (replace_dot_free owner) by done.
    change ("/" +:+ repo) with (String "/" repo).
    change (String "/" repo) with ("/" +:+ repo) at 1.
    rewrite (replace_dot_free "/") by done. by rewrite Hclean.
  - intros stem rest Hs1 Hs2 Hne Hr Hclean.
    apply owner_and_repo_github.
    + done.
    + rewrite !has_char_app, Hs1, Hr. done.
    + destruct stem; [done|]. by rewrite string_app_cons.
    + rewrite replace_github_prefix. unfold replace in *.
      rewrite (replace_dot_free owner) by done.
      rewrite (replace_dot_free "/") by done.
      rewrite (replace_dot_free stem) by done.
      by rewrite replace_dot_git, Hclean.
    + by rewrite has_char_app, Hs1, Hr.
  - intros url. unfold owner_and_repo.
    by rewrite (rstrip_snoc "/" url).
Qed.

Lemma owner_and_repo_of_github_url_witness :
  owner_and_repo "https://github.com/user/x.github.io"
  = Some ("user", "xhub.io").
Proof.
  refine (proj1 (proj2 (owner_and_repo_of_github_url "user" _ _))
            "x" "hub.io" _ _ _ _ _); try reflexivity.
  discriminate.
Defined.

(** ** A subdirectory that may not be listed *)

Lemma Forall2_zip_elem {A B C} (R : A -> B -> Prop) (f : A -> B -> C) l k x :
  Forall2 R l k -> x ∈ l ->
  exists y, R x y /\ y ∈ k /\ f x y ∈ zip_with f l k.
Proof.
  induction 1 as [|a b l k Hab _ IH]; [by intros ?%elem_of_nil|].
  intros [->|Hin]%elem_of_cons.
  - exists b. repeat split; [done|apply list_elem_of_here|].
    cbn. apply list_elem_of_here.
  - destruct (IH Hin) as (y & Hy & Hyk & Hz). exists y.
    repeat split; [done|by apply list_elem_of_further|].
    cbn. by apply list_elem_of_further.
Qed.

(** X17. A kept subdirectory that may not be listed is not left out of its
    parent's node: it is there as a key with the node [{"files": []}], and
    one warning names it. (Where the depth limit is reached neither for the
    parent nor one level down, every entry's type can be read, the names are
    distinct and no kept directory is named "files".) *)
Theorem unlistable_subdirectory_is_an_empty_node config children path
    current_depth name grandchildren result w :
  depth_reached config current_depth = false ->
  depth_reached config (current_depth + 1) = false ->
  Forall (fun c => is_inaccessible c.2 = false) children ->
  NoDup (map fst children) ->
  Forall (fun c => should_ignore config c.1 = false ->
                   is_directory c.2 = true -> c.1 <> "files") children ->
  (name, Directory false grandchildren) ∈ children ->
  should_ignore config name = false ->
  dir_to_json config (Directory true children) path current_depth
  = (inr result, w) ->
  (name, VDict [("files", VList [])]) ∈ result
  /\ PermissionWarning (path ++ [name]) ∈ w.
Proof.
  intros Hdepth Hdepth' Hacc Hdup Hfiles Hin Hkeep.
  rewrite dir_to_json_Directory, walk_listed, Hdepth.
  set (l := listing_of config path current_depth children).
  assert (Forall (fun x => is_inaccessible (item_node x) = false) l) as Hl.
  { unfold l, listing_of. by apply List.Forall_map. }
  assert (List.find (fun x => is_inaccessible (item_node x)) l = None) as ->
    by by apply find_inaccessible_None.
  intros Hrun.
  destruct (visit_all_shape config path (sort_items l)) with
    (names := @nil string) (subs := @nil (string * value))
    (result := result) (w := w) as (walked & Hwalked & -> & ->);
    try done.
  - by rewrite sort_items_perm.
  - rewrite sort_items_perm. unfold l, listing_of. apply List.Forall_map.
    apply Forall_true. intros c. cbn. intros Hd.
    destruct (stack_exhausted _ _ _ _); [done|by apply dir_to_json_settled].
  - apply NoDup_map_filter. rewrite sort_items_perm.
    unfold l. by rewrite listing_of_names.
  - unfold kept_dirs. apply Forall_forall. intros x Hx.
    apply list_elem_of_In, List.filter_In in Hx as [Hx Hkept].
    apply andb_true_iff in Hkept as [Hk%negb_true_iff Hdir].
    apply list_elem_of_In in Hx. rewrite sort_items_perm in Hx.
    unfold l, listing_of in Hx.
    apply list_elem_of_In, List.in_map_iff in Hx as (c & <- & Hc).
    apply list_elem_of_In in Hc. rewrite Forall_forall in Hfiles.
    by apply (Hfiles c Hc).
  - apply Forall_forall. intros x _. cbn. by intros ?%elem_of_nil.
  - set (x := Item name (Directory false grandchildren)
                (if stack_exhausted config (path ++ [name])
                      (Directory false grandchildren) (current_depth + 1)
                 then raise RecursionError
                 else dir_to_json config (Directory false grandchildren)
                        (path ++ [name]) (current_depth + 1))).
    assert (x ∈ kept_dirs config (sort_items l)) as Hx.
    { unfold kept_dirs. apply list_elem_of_In, List.filter_In. split.
      - apply list_elem_of_In. rewrite sort_items_perm. unfold l, listing_of.
        apply list_elem_of_In, List.in_map_iff.
        exists (name, Directory false grandchildren).
        split; [done|by apply list_elem_of_In].
      - cbn. by rewrite Hkeep. }
    destruct (Forall2_zip_elem _
                (fun x sw => (item_name x, VDict sw.1)) _ _ x Hwalked Hx)
      as ([sub w'] & Hwalk & Hsw & Hz).
    cbn [item_walk x fst snd] in Hwalk.
    destruct (stack_exhausted config (path ++ [name]) _ _); [done|].
    rewrite dir_to_json_Directory, walk_denied, Hdepth' in Hwalk.
    injection Hwalk as <- <-. split.
    + apply list_elem_of_further. exact Hz.
    + apply list_elem_of_In, List.in_concat.
      exists [PermissionWarning (path ++ [name])].
      split; [|apply List.in_eq].
      apply List.in_map_iff. eexists. split; [|by apply list_elem_of_In].
      done.
Qed.

(** ** The builder: a directory named "files" *)

Lemma bind_fst_inl {A B} (m : M A) (k : A -> M B) e :
  m.1 = inl e -> (bind m k).1 = inl e.
Proof. destruct m as [[e'|a] w]; cbn; [by intros [= ->]|done]. Qed.

(** X18. Once the root holds a directory under the key "files", a kept blob
    at top level anywhere later in the listing makes the loop of the builder
    raise: its name cannot be appended to a dictionary. *)
Theorem blob_beside_files_directory_raises config tree :
  forall d sub node name,
    dict_get "files" d = Some (VDict sub) ->
    node ∈ tree ->
    split "/" (entry_path node) = [name] ->
    entry_type node = "blob" ->
    should_ignore config name = false ->
    exists e, (add_entries config tree (VDict d)).1 = inl e.
Proof.
  induction tree as [|node0 tree IH]; intros d sub node name Hfiles Hin
    Hparts Htype Hkeep; [by apply elem_of_nil in Hin|].
  cbn [add_entries].
  destruct (add_entry config node0 (VDict d)) as [[e|root1] w1] eqn:Hone.
  { exists e. by apply bind_fst_inl. }
  apply elem_of_cons in Hin as [->|Hin].
  - unfold add_entry in Hone. rewrite Hparts, Htype in Hone.
    cbn [existsb] in Hone. rewrite Hkeep in Hone.
    cbn [orb removelast List.last place] in Hone.
    rewrite add_final_VDict in Hone.
    cbn [String.eqb Ascii.eqb Bool.eqb] in Hone. cbv zeta in Hone.
    assert (dict_mem "files" d = true) as Hm
      by (apply dict_mem_get; by rewrite Hfiles).
    by rewrite Hm, Hfiles in Hone.
  - pose proof (add_entry_grows _ _ _ _ _ Hone) as Hgrows.
    inversion Hgrows as [|? d1 Hd]; subst.
    destruct (Hd "files" _ Hfiles) as (v' & Hfiles1 & Hv').
    inversion Hv' as [|? sub' _]; subst.
    destruct (IH d1 sub' node name Hfiles1 Hin Hparts Htype Hkeep)
      as [e He].
    exists e. by rewrite (bind_fst_inr _ _ (VDict d1)).
Qed.

Lemma blob_beside_files_directory_raises_witness :
  exists e,
    (add_entries default_config
       [FlatEntry "src" "tree"; FlatEntry "README.md" "blob"]
       (VDict [("files", VDict [("files", VList ["logo.png"])])])).1
    = inl e.
Proof.
  refine (blob_beside_files_directory_raises default_config _ _
            [("files", VList ["logo.png"])]
            (FlatEntry "README.md" "blob") "README.md" _ _ _ _ _);
    try reflexivity.
  apply list_elem_of_further, list_elem_of_here.
Defined.

End properties.

(** * The properties at work

    The traversal on an interpreter whose stack has room for every call, on
    names in ASCII. *)

#[local] Existing Instance ascii_interpreter.

(** ** The claims *)

Lemma depth_limit_gives_empty_node_witness :
  dir_to_json
    {| ignores := DEFAULT_IGNORES; include_hidden := true;
       max_depth := Some 1%Z |}
    (Directory false [("a.txt", Regular); ("src", Directory true [])])
    ["repo"; "docs"] 1
  = (inr empty_node, []).
Proof.
  refine (proj1 (depth_limit_gives_empty_node _ _ _ _ 1%Z 1%Z _ _));
    [reflexivity|lia].
Defined.

Lemma dir_to_json_fatal_errors_witness :
  dir_to_json default_config Dangling ["missing"] 0
  = (inl (DirectoryNotFoundError ["missing"]), [])
  /\ dir_to_json default_config Regular ["notes.txt"] 0
     = (inl (TreesonError ["notes.txt"]), []).
Proof.
  split.
  - apply (proj1 (proj2 (dir_to_json_fatal_errors default_config Dangling
                           ["missing"] 0))).
    reflexivity.
  - apply (proj1 (proj2 (proj2 (dir_to_json_fatal_errors default_config Regular
                                  ["notes.txt"] 0)))); reflexivity.
Defined.

Lemma ignored_entries_leave_no_trace_witness :
  exists names,
    dict_get "files"
      [("files", VList ["README.md"]); ("src", VDict [("files", VList [])])]
    = Some (VList names) /\ "README.md" ∈ names.
Proof.
  refine (proj2 (proj2 (proj2 (ignored_entries_leave_no_trace default_config)))
            [(".git", Directory true []); ("README.md", Regular);
             ("src", Directory true []); ("build", Regular)]
            ["repo"] 0%Z "README.md" Regular _ [] _ _ _ _ _).
  - repeat constructor.
  - reflexivity.
  - set_solver.
  - reflexivity.
  - vm_compute. reflexivity.
Defined.

Lemma children_are_visited_in_order_witness :
  (exists dirs files,
      sorted (item_key ["repo"])
        (listing_of default_config ["repo"] 0
           [("setup.py", Regular); ("Docs", Directory true []);
            ("app", Directory false []); ("README", Regular)])
      = (inr (dirs ++ files), [])
      /\ StronglySorted names_le dirs
      /\ StronglySorted names_le files)
  /\ dir_to_json default_config
       (Directory true
          [("B.txt", Regular); ("a.txt", Regular);
           ("Z", Directory true []); ("y", Directory true [])]) [] 0
     = (inr [("files", VList ["a.txt"; "B.txt"]);
             ("y", VDict [("files", VList [])]);
             ("Z", VDict [("files", VList [])])], []).
Proof.
  split.
  - destruct (proj1 children_are_visited_in_order default_config
                [("setup.py", Regular); ("Docs", Directory true []);
                 ("app", Directory false []); ("README", Regular)]
                ["repo"] 0%Z)
      as (dirs & files & Hs & _ & _ & _ & _ & Hd & Hf).
    + repeat constructor.
    + reflexivity.
    + by exists dirs, files.
  - apply (proj2 (proj2 children_are_visited_in_order)). by intros ????.
Defined.

(** C7, as stated, fails: [stat] on the target itself is outside both [try]
    blocks, and the [PermissionError] it raises comes out of [dir_to_json]
    (the docstring lists it under Raises). *)
Lemma permission_error_on_target_propagates :
  dir_to_json default_config Inaccessible ["srv"; "private"] 0
  = (inl (PermissionError ["srv"; "private"]), []).
Proof. reflexivity. Qed.

Lemma permission_errors_below_target_are_absorbed_witness :
  dir_to_json default_config
    (Directory false [("a.txt", Regular)]) ["srv"; "private"] 0
  = (inr empty_node, [PermissionWarning ["srv"; "private"]]).
Proof.
  refine (proj2 (permission_errors_below_target_are_absorbed default_config
                   (Directory false [("a.txt", Regular)]) ["srv"; "private"]
                   0%Z _) _ _ _); reflexivity.
Defined.



Lemma root_files_key_witness :
  dict_mem "files" [("files", VList [])] = true
  /\ contains "files"
       (VDict [("docs", VDict [("files", VList [])]);
               ("files", VList ["README.md"])])
     = true.
Proof.
  split.
  - refine (proj1 (root_files_key
                     {| ignores := DEFAULT_IGNORES; include_hidden := false;
                        max_depth := Some 0%Z |})
              (Directory true [("a.txt", Regular)]) ["repo"] 0%Z _ [] _).
    by vm_compute.
  - refine (eq_trans
              (proj2 (proj2 (root_files_key default_config))
                 [FlatEntry "docs" "tree"; FlatEntry "README.md" "blob"]
                 (VDict [("docs", VDict [("files", VList [])]);
                         ("files", VList ["README.md"])]) [] _) _);
      by vm_compute.
Defined.

(** ** The further properties *)

Lemma traversal_output_has_no_ignored_name_witness :
  should_ignore default_config "cli.py" = false
  /\ ("cli.py" ∉ ignores default_config)
  /\ (include_hidden default_config = false ->
      starts_with_dot "cli.py" = false).
Proof.
  refine (traversal_output_has_no_ignored_name default_config
            (Directory true
               [(".git", Directory true [("config", Regular)]);
                ("treeson", Directory true
                              [("cli.py", Regular);
                               ("__pycache__", Directory true [])])])
            ["repo"] 0%Z
            [("files", VList []);
             ("treeson", VDict [("files", VList ["cli.py"])])]
            [] "cli.py" _ _).
  - by vm_compute.
  - vm_compute. apply list_elem_of_further, list_elem_of_here.
Defined.

Lemma directory_node_shape_witness :
  exists walked : list (dict * list diagnostic),
    [("files", VList ["a.txt"; "B.txt"]);
     ("lib", VDict [("files", VList [])]);
     ("Src", VDict [("files", VList ["x.py"])])]
    = ("files",
       VList (map item_name
                (kept_files default_config
                   (sort_items
                      (listing_of default_config ["repo"] 0
                         [("Src", Directory true [("x.py", Regular)]);
                          ("B.txt", Regular); (".env", Regular);
                          ("lib", Directory false []);
                          ("a.txt", Regular)])))))
      :: zip_with (fun x sw => (item_name x, VDict sw.1))
           (kept_dirs default_config
              (sort_items
                 (listing_of default_config ["repo"] 0
                    [("Src", Directory true [("x.py", Regular)]);
                     ("B.txt", Regular); (".env", Regular);
                     ("lib", Directory false []);
                     ("a.txt", Regular)])))
           walked
    /\ [PermissionWarning ["repo"; "lib"]] = concat (map snd walked).
Proof.
  destruct (directory_node_shape default_config
              [("Src", Directory true [("x.py", Regular)]);
               ("B.txt", Regular); (".env", Regular);
               ("lib", Directory false []);
               ("a.txt", Regular)]
              ["repo"] 0%Z
              [("files", VList ["a.txt"; "B.txt"]);
               ("lib", VDict [("files", VList [])]);
               ("Src", VDict [("files", VList ["x.py"])])]
              [PermissionWarning ["repo"; "lib"]])
    as (walked & _ & Hres & Hw).
  - reflexivity.
  - repeat constructor.
  - apply (bool_decide_unpack _). by vm_compute.
  - repeat constructor; by vm_compute.
  - by vm_compute.
  - by exists walked.
Defined.



Lemma depth_limit_bounds_nesting_witness :
  (Z.of_nat
     (levels
        (VDict [("files", VList ["a.txt"]);
                ("src", VDict [("files", VList [])])]))
   <= Z.max 1 (1 - 0 + 1))%Z.
Proof.
  refine (depth_limit_bounds_nesting
            {| ignores := DEFAULT_IGNORES; include_hidden := false;
               max_depth := Some 1%Z |} 1%Z
            (Directory true
               [("a.txt", Regular);
                ("src", Directory true
                          [("main.py", Regular);
                           ("pkg", Directory true [("x.py", Regular)])])])
            _ ["repo"] 0%Z _ [] _); reflexivity.
Defined.

Lemma readable_tree_prints_nothing_witness :
  (dir_to_json default_config
     (Directory true
        [("a.txt", Regular); ("fifo", Special); ("link", Dangling);
         ("src", Directory true [("files", Directory true []);
                                 ("main.py", Regular)])])
     ["repo"] 0).2 = [].
Proof.
  refine (readable_tree_prints_nothing default_config _ _ ["repo"] 0%Z).
  reflexivity.
Defined.


Lemma unlistable_subdirectory_is_an_empty_node_witness :
  ("private", VDict [("files", VList [])])
  ∈ [("files", VList ["a.txt"; "b.txt"]);
     ("private", VDict [("files", VList [])])]
  /\ PermissionWarning ["repo"; "private"]
     ∈ [PermissionWarning ["repo"; "private"]].
Proof.
  refine (unlistable_subdirectory_is_an_empty_node default_config
            [("a.txt", Regular);
             ("private", Directory false [("key.pem", Regular)]);
             ("b.txt", Regular)]
            ["repo"] 0%Z "private" [("key.pem", Regular)] _ _
            _ _ _ _ _ _ _ _).
  - reflexivity.
  - reflexivity.
  - repeat constructor.
  - apply (bool_decide_unpack _). by vm_compute.
  - repeat constructor; by vm_compute.
  - apply list_elem_of_further, list_elem_of_here.
  - reflexivity.
  - by vm_compute.
Defined.
